(** * The process runner of cursor-openai-bridge and the agent-binary
      lookup of opencode-plugin-cursor

    Shallow embedding of

    - [packages/cursor-openai-bridge/src/lib/process.ts]
      ([resolveWindowsCursorAgent], [run]) and
    - [packages/opencode-plugin-cursor/src/index.ts] ([getCursorAgentBin]).

    JavaScript strings are modelled as [string] (sequences of 8-bit code
    units carrying ASCII text), [process.env] as a finite map from names to
    values, statements that may return early or throw as completions,
    awaited promises as outcomes (fulfilled or rejected), and the life of
    one child process as a state machine driven by the events the runtime
    delivers to the listeners that [run] registers. *)

From Stdlib Require Import ZArith QArith Ascii String List Bool Lia.
From stdpp Require Import base list strings gmap sorting.

Local Open Scope string_scope.
Local Open Scope list_scope.

(** ** JavaScript primitives used by the two files *)
Module Js.

(** [Boolean(s)] for a string: only the empty string is falsy. *)
Definition truthy (s : string) : bool :=
  negb (String.eqb s "").

(** [Boolean(v)] for [v : string | undefined]. *)
Definition truthy_opt (v : option string) : bool :=
  match v with
  | Some s => truthy s
  | None => false
  end.

(** A variable that [||] skips: undefined or the empty string. *)
Definition unset_or_empty (v : option string) : Prop :=
  v = None \/ v = Some "".

(** [v || d] for [v : string | undefined] and a string [d]. *)
Definition or_else (v : option string) (d : string) : string :=
  match v with
  | Some s => if truthy s then s else d
  | None => d
  end.

(** [a || b] where both sides are [string | undefined]. *)
Definition or_opt (a b : option string) : option string :=
  if truthy_opt a then a else b.

(** [code ?? d]: only [null]/[undefined] select the default. *)
Definition nullish {A} (v : option A) (d : A) : A :=
  match v with
  | Some x => x
  | None => d
  end.

(** [s.endsWith(suffix)]: the last [suffix.length] code units of [s]. *)
Definition endsWith (s suffix : string) : bool :=
  let n := String.length s in
  let m := String.length suffix in
  (m <=? n)%nat && String.eqb (String.substring (n - m) m s) suffix.

(** [s.includes(sub)]. *)
Fixpoint includes (sub s : string) : bool :=
  String.prefix sub s ||
  match s with
  | EmptyString => false
  | String _ s' => includes sub s'
  end.

(** White space and line terminators in the ASCII range, as [trim]
    strips them: TAB, LF, VT, FF, CR and SPACE. *)
Definition is_space (c : ascii) : bool :=
  let n := nat_of_ascii c in
  ((9 <=? n)%nat && (n <=? 13)%nat) || (n =? 32)%nat.

Fixpoint trimStart (s : string) : string :=
  match s with
  | EmptyString => EmptyString
  | String c s' => if is_space c then trimStart s' else s
  end.

(** Drops trailing white space: a character is kept when it is not white
    space or when something is kept after it. *)
Fixpoint trimEnd (s : string) : string :=
  match s with
  | EmptyString => EmptyString
  | String c s' =>
      match trimEnd s' with
      | EmptyString => if is_space c then EmptyString else String c EmptyString
      | rest => String c rest
      end
  end.

Definition trim (s : string) : string := trimEnd (trimStart s).

Definition LF : ascii := ascii_of_nat 10.
Definition CR : ascii := ascii_of_nat 13.

(** [s.split(/\r?\n/)[0]]: the text before the first line break, where a
    line break is LF or CR immediately followed by LF. [split] always
    yields at least one piece, so index 0 is defined. *)
Fixpoint first_line (s : string) : string :=
  match s with
  | EmptyString => EmptyString
  | String c s' =>
      if Ascii.eqb c LF then EmptyString
      else if Ascii.eqb c CR && String.prefix (String LF EmptyString) s'
           then EmptyString
           else String c (first_line s')
  end.

(** [chunks.reduce((s, c) => s + c, "")]: what repeated [s += c] builds. *)
Definition concat_chunks (chunks : list string) : string :=
  fold_left String.append chunks "".

(** Numbers as far as [run] looks at them: [typeof x === "number"] holds
    for every constructor, and only the comparison with zero is used. *)
Inductive number : Type :=
| NaN
| Infinity (negative : bool)
| Finite (q : Q).

(** [x > 0]. *)
Definition gt_zero (x : number) : bool :=
  match x with
  | NaN => false
  | Infinity negative => negb negative
  | Finite q => (0 <? Qnum q)%Z
  end.

(** Thrown values and rejection reasons. [Errno] is an error object made
    by the platform (it keeps its identity, here its fields); [NewError]
    is [new Error(message)] made by the program. *)
Record ErrnoException : Type := mkErrno {
  errno_code : option string;
  errno_message : string;
}.

Inductive error : Type :=
| Errno (e : ErrnoException)
| NewError (message : string).

(** What awaiting a promise, or calling a function, gives back. *)
Inductive outcome (A : Type) : Type :=
| Fulfilled (a : A)
| Rejected (e : error).
Arguments Fulfilled {A} a.
Arguments Rejected {A} e.

(** Completion of a statement inside a function whose return type is
    [R]: it goes on with a value, returns from the function, or throws. *)
Inductive completion (R A : Type) : Type :=
| Normal (a : A)
| Return (r : R)
| Throw (e : error).
Arguments Normal {R A} a.
Arguments Return {R A} r.
Arguments Throw {R A} e.

Definition bind {R A B} (m : completion R A) (k : A -> completion R B)
  : completion R B :=
  match m with
  | Normal a => k a
  | Return r => Return r
  | Throw e => Throw e
  end.

(** [await p], and a call that may throw. *)
Definition await {R A} (p : outcome A) : completion R A :=
  match p with
  | Fulfilled a => Normal a
  | Rejected e => Throw e
  end.

(** [p.catch(handler)] *)
Definition promise_catch {A} (p : outcome A) (handler : error -> A)
  : outcome A :=
  match p with
  | Fulfilled a => Fulfilled a
  | Rejected e => Fulfilled (handler e)
  end.

(** [try { body } catch (e) { handler }]: only a throw is intercepted. *)
Definition try_catch {R A} (body : completion R A)
    (handler : error -> completion R A) : completion R A :=
  match body with
  | Throw e => handler e
  | other => other
  end.

(** The promise an [async function] hands back for its body. *)
Definition async {R} (body : completion R R) : outcome R :=
  match body with
  | Normal r => Fulfilled r
  | Return r => Fulfilled r
  | Throw e => Rejected e
  end.

(** What becomes of a promise that only an event listener can settle: the
    event comes and the promise settles; or an ['error'] event is emitted
    for which there is no listener, which raises an exception that
    nothing catches (the process dies, or goes on with the promise left
    unsettled); or no event ever comes. *)
Inductive fate (A : Type) : Type :=
| Settles (o : outcome A)
| Uncaught (e : error)
| NeverSettles.
Arguments Settles {A} o.
Arguments Uncaught {A} e.
Arguments NeverSettles {A}.

Coercion Settles : outcome >-> fate.

(** A function body that may be left at an [await] for good: it goes on
    to a completion, or it is never resumed, with or without an uncaught
    exception. *)
Inductive progress (R A : Type) : Type :=
| Goes (c : completion R A)
| Dies (e : error)
| Waits.
Arguments Goes {R A} c.
Arguments Dies {R A} e.
Arguments Waits {R A}.

Definition bind_progress {R A B} (m : progress R A)
    (k : A -> progress R B) : progress R B :=
  match m with
  | Goes (Normal a) => k a
  | Goes (Return r) => Goes (Return r)
  | Goes (Throw e) => Goes (Throw e)
  | Dies e => Dies e
  | Waits => Waits
  end.

(** [await p] for a promise with a fate. *)
Definition await_fate {R A} (p : fate A) : progress R A :=
  match p with
  | Settles o => Goes (await o)
  | Uncaught e => Dies e
  | NeverSettles => Waits
  end.

(** [try { body } catch (e) { handler }] around such a body: it catches
    what the body throws, not what is raised outside of it. *)
Definition try_catch_progress {R A} (body : progress R A)
    (handler : error -> progress R A) : progress R A :=
  match body with
  | Goes (Throw e) => handler e
  | other => other
  end.

(** The promise of an [async function] with such a body. *)
Definition async_progress {R} (body : progress R R) : fate R :=
  match body with
  | Goes c => Settles (async c)
  | Dies e => Uncaught e
  | Waits => NeverSettles
  end.

End Js.

Notation "'let*' x ':=' m 'in' k" := (Js.bind m (fun x => k))
  (at level 10, x name, m at level 100, k at level 200).

Notation "'let+' x ':=' m 'in' k" := (Js.bind_progress m (fun x => k))
  (at level 10, x name, m at level 100, k at level 200).

(** ** Regular expressions, as far as [process.ts] uses them

    [re.test(s)] for a pattern anchored at both ends ([^...$], no flags)
    decides whether the whole of [s] belongs to the language of the
    pattern; backtracking does not change that. The matcher works by
    derivatives. *)
Module Regex.

Inductive regex : Type :=
| Void
| Eps
| Class (p : ascii -> bool)
| Cat (r1 r2 : regex)
| Alt (r1 r2 : regex)
| Star (r : regex).

Fixpoint nullable (r : regex) : bool :=
  match r with
  | Void => false
  | Eps => true
  | Class _ => false
  | Cat r1 r2 => nullable r1 && nullable r2
  | Alt r1 r2 => nullable r1 || nullable r2
  | Star _ => true
  end.

Fixpoint deriv (c : ascii) (r : regex) : regex :=
  match r with
  | Void => Void
  | Eps => Void
  | Class p => if p c then Eps else Void
  | Cat r1 r2 =>
      if nullable r1
      then Alt (Cat (deriv c r1) r2) (deriv c r2)
      else Cat (deriv c r1) r2
  | Alt r1 r2 => Alt (deriv c r1) (deriv c r2)
  | Star r1 => Cat (deriv c r1) (Star r1)
  end.

(** [/^r$/.test(s)] *)
Fixpoint test (r : regex) (s : string) : bool :=
  match s with
  | EmptyString => nullable r
  | String c s' => test (deriv c r) s'
  end.

(** The language of a pattern. *)
Inductive Matches : regex -> string -> Prop :=
| MEps : Matches Eps ""
| MClass p c : p c = true -> Matches (Class p) (String c "")
| MCat r1 r2 s1 s2 :
    Matches r1 s1 -> Matches r2 s2 -> Matches (Cat r1 r2) (s1 +:+ s2)
| MAltL r1 r2 s : Matches r1 s -> Matches (Alt r1 r2) s
| MAltR r1 r2 s : Matches r2 s -> Matches (Alt r1 r2) s
| MStarNil r : Matches (Star r) ""
| MStarApp r s1 s2 :
    Matches r s1 -> Matches (Star r) s2 -> Matches (Star r) (s1 +:+ s2).

(** Pattern syntax of the source. *)
Definition Lit (c : ascii) : regex := Class (Ascii.eqb c).

(** [r{n}] *)
Fixpoint Times (n : nat) (r : regex) : regex :=
  match n with
  | O => Eps
  | S n' => Cat r (Times n' r)
  end.

(** [r?] *)
Definition Opt (r : regex) : regex := Alt Eps r.

(** [r+] *)
Definition Plus (r : regex) : regex := Cat r (Star r).

Definition in_range (lo hi c : ascii) : bool :=
  (nat_of_ascii lo <=? nat_of_ascii c)%nat &&
  (nat_of_ascii c <=? nat_of_ascii hi)%nat.

(** [\d] *)
Definition is_digit (c : ascii) : bool := in_range "0" "9" c.

(** [[a-f0-9]] *)
Definition is_lower_hex (c : ascii) : bool :=
  in_range "a" "f" c || in_range "0" "9" c.

End Regex.

(** ** [cursor-openai-bridge/src/lib/process.ts] *)
Module Process.
Import Js.

(** [RunResult] *)
Record RunResult : Type := mkRunResult {
  code : Z;
  stdout : string;
  stderr : string;
}.

(** [RunOptions]; [None] is an absent (undefined) field. *)
Record RunOptions : Type := mkRunOptions {
  cwd : option string;
  timeoutMs : option number;
  stdin : option string;
}.

(** What the program reads from its surroundings. [dirname] and [join]
    are the functions of [node:path] for the platform; [where_agent] is
    the text that [where agent] has written, chunk by chunk, when it
    closes, or the error that spawning it throws (what else can become of
    that child is in [WhereChild] below); [readdir] is the promise of
    [node:fs/promises]. *)
Record Host : Type := mkHost {
  platform : string;
  env : gmap string string;
  dirname : string -> string;
  join : list string -> string;
  where_agent : outcome (list string);
  readdir : string -> outcome (list string);
}.

(** The child that [spawn("where", ["agent"])] starts has a ['close']
    listener and no ['error'] listener (lines 26-31). It reports, as
    [where_agent] of the host says; or it cannot be started and emits
    ['error']; or it never closes. *)
Inductive WhereChild : Type :=
| WhereReports
| WhereFails (err : ErrnoException)
| WhereSilent.

(** A host together with the life of its [where] child. A host by itself
    stands for the machine on which that child reports. *)
Record Machine : Type := mkMachine {
  host : Host;
  where_child : WhereChild;
}.

Definition well_behaved (h : Host) : Machine := mkMachine h WhereReports.

Coercion well_behaved : Host >-> Machine.

(** Lines 26-31: the call of [spawn] and the promise [out]. A throw of
    [spawn] is a rejection here; an ['error'] event finds no listener. *)
Definition where_promise (m : Machine) : fate (list string) :=
  match where_child m with
  | WhereReports => Settles (where_agent (host m))
  | WhereFails err => Uncaught (Errno err)
  | WhereSilent => NeverSettles
  end.

(** The value [resolveWindowsCursorAgent] resolves to when not [null]. *)
Record ResolvedInvocation : Type := mkResolved {
  resolved_cmd : string;
  argsPrefix : list string;
}.

(** The version pattern in the words of the specification: a four-digit
    year, a dot, a month of one or two digits, a dot, a day of one or two
    digits, a hyphen and a build id of lower-case hexadecimal digits. *)
Definition all_chars (p : ascii -> bool) (s : string) : Prop :=
  Forall (fun c => p c = true) (String.list_ascii_of_string s).

Definition is_version_name (s : string) : Prop :=
  exists year month day build : string,
    s = year +:+ "." +:+ month +:+ "." +:+ day +:+ "-" +:+ build /\
    (String.length year = 4 /\ all_chars Regex.is_digit year) /\
    (1 <= String.length month <= 2 /\ all_chars Regex.is_digit month) /\
    (1 <= String.length day <= 2 /\ all_chars Regex.is_digit day) /\
    (1 <= String.length build /\ all_chars Regex.is_lower_hex build).

(** [/^\d{4}\.\d{1,2}\.\d{1,2}-[a-f0-9]+$/] *)
Definition version_re : Regex.regex :=
  let d := Regex.Class Regex.is_digit in
  let d12 := Regex.Cat d (Regex.Opt d) in
  Regex.Cat (Regex.Times 4 d)
    (Regex.Cat (Regex.Lit ".")
      (Regex.Cat d12
        (Regex.Cat (Regex.Lit ".")
          (Regex.Cat d12
            (Regex.Cat (Regex.Lit "-")
              (Regex.Plus (Regex.Class Regex.is_lower_hex))))))).

(** [Array.prototype.sort] without a comparator, on strings: ascending,
    compared code unit by code unit ([String.le] is [String.leb]). *)
Definition sort (l : list string) : list string := merge_sort String.le l.

(** [entries.filter(name => re.test(name)).sort().reverse()] *)
Definition versions (entries : list string) : list string :=
  reverse (sort (filter (fun name => Regex.test version_re name = true) entries)).

Definition resolveWindowsCursorAgent (m : Machine) (cmd : string)
  : fate (option ResolvedInvocation) :=
  let h := host m in
  async_progress (
    if negb (String.eqb (platform h) "win32") then Goes (Return None) else
    if negb (endsWith cmd "agent.cmd") && negb (String.eqb cmd "agent")
    then Goes (Return None) else
    let+ _ :=
      try_catch_progress (
        let+ agentPath :=
          (if String.eqb cmd "agent" then
             let+ chunks := await_fate (where_promise m) in
             let out := first_line (trim (concat_chunks chunks)) in
             if truthy out && endsWith out "agent.cmd"
             then Goes (Normal out)
             else Goes (Return None)
           else Goes (Normal cmd)) in
        let agentDir := dirname h agentPath in
        let versionsDir := join h [agentDir; "versions"] in
        let+ entries :=
          Goes (await (promise_catch (readdir h versionsDir) (fun _ => []))) in
        match versions entries with
        | latest :: _ =>
            let nodeExe := join h [versionsDir; latest; "node.exe"] in
            let script := join h [versionsDir; latest; "index.js"] in
            Goes (Return (Some (mkResolved nodeExe [script])))
        | [] => Goes (Normal tt)
        end)
        (fun _ => Goes (Normal tt)) in
    Goes (Return None)).

(** Lines 39-53 as a function of the path of the wrapper script and of
    the listing that [readdir(...).catch(...)] gives. *)
Definition from_listing (h : Host) (agentPath : string)
    (entries : list string) : outcome (option ResolvedInvocation) :=
  let versionsDir := join h [dirname h agentPath; "versions"] in
  match versions entries with
  | latest :: _ =>
      Fulfilled (Some (mkResolved (join h [versionsDir; latest; "node.exe"])
                         [join h [versionsDir; latest; "index.js"]]))
  | [] => Fulfilled None
  end.

(** The command and arguments handed to [spawn]. *)
Record Invocation : Type := mkInvocation {
  actualCmd : string;
  actualArgs : list string;
}.

(** Lines 71-74: the invocation when nothing was resolved. *)
Definition unresolved_invocation (h : Host) (cmd : string)
    (args : list string) : Invocation :=
  if String.eqb (platform h) "win32"
     && (endsWith cmd ".cmd" || endsWith cmd ".bat" || String.eqb cmd "agent")
  then mkInvocation (or_else (env h !! "COMSPEC") "cmd.exe")
         (["/d"; "/s"; "/c"; cmd] ++ args)
  else mkInvocation cmd args.

(** Lines 61-74 of [run]: which program is started. *)
Definition resolve_invocation (m : Machine) (cmd : string) (args : list string)
  : fate Invocation :=
  let h := host m in
  async_progress (
    let isWin := String.eqb (platform h) "win32" in
    let+ resolved := await_fate (resolveWindowsCursorAgent m cmd) in
    match resolved with
    | Some r =>
        Goes (Return (mkInvocation (resolved_cmd r) (argsPrefix r ++ args)))
    | None =>
        if isWin && (endsWith cmd ".cmd" || endsWith cmd ".bat"
                     || String.eqb cmd "agent")
        then Goes (Return (mkInvocation (or_else (env h !! "COMSPEC") "cmd.exe")
                             (["/d"; "/s"; "/c"; cmd] ++ args)))
        else Goes (Return (mkInvocation cmd args))
    end).

(** *** The promise executor of [run] (lines 76-126) *)

Inductive StdioMode : Type := Pipe | Ignore.

(** The options object given to [spawn]; [env] is always [process.env]. *)
Record SpawnOptions : Type := mkSpawnOptions {
  spawn_cwd : option string;
  stdio : StdioMode * StdioMode * StdioMode;
  windowsHide : bool;
}.

(** What the executor and the listeners do to the outside, in order. *)
Inductive effect : Type :=
| Spawn (command : string) (args : list string) (options : SpawnOptions)
| StdinWrite (text : string)
| StdinEnd
| SetTimeout (ms : number)
| ClearTimeout
| Kill (signal : string)
| Resolve (r : RunResult)
| Reject (e : error).

(** The variable [timeout]: [undefined], or a timer that is pending, has
    run its callback, or was cleared while pending. *)
Inductive Timer : Type :=
| NoTimer
| Armed (ms : number)
| Fired
| Cleared.

(** The promise that [run] returns. *)
Inductive Promise : Type :=
| Pending
| Settled (o : outcome RunResult).

Record RunState : Type := mkRunState {
  timeout : Timer;
  stdout_acc : string;
  stderr_acc : string;
  promise : Promise;
  effects : list effect;
}.

(** Events the runtime delivers for one child: chunks of the two output
    streams, ['error'], ['close'] and the expiry of the timer. *)
Inductive Event : Type :=
| EvStdout (chunk : string)
| EvStderr (chunk : string)
| EvError (err : ErrnoException)
| EvClose (code : option Z)
| EvTimeout.

Definition log (e : effect) (st : RunState) : RunState :=
  mkRunState (timeout st) (stdout_acc st) (stderr_acc st) (promise st)
    (effects st ++ [e]).

(** [resolve(r)] and [reject(e)]: only the first call settles. *)
Definition settle (o : outcome RunResult) (st : RunState) : RunState :=
  mkRunState (timeout st) (stdout_acc st) (stderr_acc st)
    (match promise st with Pending => Settled o | p => p end)
    (effects st).

Definition resolve (r : RunResult) (st : RunState) : RunState :=
  settle (Fulfilled r) (log (Resolve r) st).

Definition reject (e : error) (st : RunState) : RunState :=
  settle (Rejected e) (log (Reject e) st).

(** [if (timeout) clearTimeout(timeout)]: a pending timer is cancelled;
    clearing one that has run or was cleared changes nothing. *)
Definition clear_timeout (st : RunState) : RunState :=
  match timeout st with
  | NoTimer => st
  | Armed _ =>
      log ClearTimeout
        (mkRunState Cleared (stdout_acc st) (stderr_acc st) (promise st)
           (effects st))
  | Fired | Cleared => log ClearTimeout st
  end.

(** [stdio[0]]: ["pipe"] when [opts.stdin] is truthy. *)
Definition stdin_mode (opts : RunOptions) : StdioMode :=
  if truthy_opt (stdin opts) then Pipe else Ignore.

(** [child.stdin] is a stream exactly when its slot is ["pipe"]. *)
Definition has_stdin (m : StdioMode) : bool :=
  match m with Pipe => true | Ignore => false end.

(** Lines 84-87. *)
Definition feed_stdin (opts : RunOptions) : list effect :=
  match stdin opts with
  | Some text =>
      if truthy text && has_stdin (stdin_mode opts)
      then [StdinWrite text; StdinEnd]
      else []
  | None => []
  end.

(** Lines 89-95: [typeof timeoutMs === "number" && timeoutMs > 0]. *)
Definition arm_timeout (opts : RunOptions) : Timer :=
  match timeoutMs opts with
  | Some ms => if gt_zero ms then Armed ms else NoTimer
  | None => NoTimer
  end.

Definition timer_effects (t : Timer) : list effect :=
  match t with
  | Armed ms => [SetTimeout ms]
  | _ => []
  end.

(** The state when the executor has run: the child is spawned, its input
    fed, the timer armed and the listeners registered. *)
Definition start (opts : RunOptions) (inv : Invocation) : RunState :=
  let options :=
    mkSpawnOptions (cwd opts) (stdin_mode opts, Pipe, Pipe) true in
  mkRunState (arm_timeout opts) "" "" Pending
    ([Spawn (actualCmd inv) (actualArgs inv) options]
       ++ feed_stdin opts ++ timer_effects (arm_timeout opts)).

Definition not_found_message (cmd : string) : string :=
  "Command not found: " +:+ cmd
    +:+ ". Install Cursor CLI (agent) or set CURSOR_AGENT_BIN to its path.".

(** The listeners registered in lines 100-125 and the timer callback of
    lines 92-94. The runtime runs the callback of a timer only while the
    timer is pending. *)
Definition handle (cmd : string) (st : RunState) (ev : Event) : RunState :=
  match ev with
  | EvStdout c =>
      mkRunState (timeout st) (stdout_acc st +:+ c) (stderr_acc st)
        (promise st) (effects st)
  | EvStderr c =>
      mkRunState (timeout st) (stdout_acc st) (stderr_acc st +:+ c)
        (promise st) (effects st)
  | EvTimeout =>
      match timeout st with
      | Armed _ =>
          log (Kill "SIGKILL")
            (mkRunState Fired (stdout_acc st) (stderr_acc st) (promise st)
               (effects st))
      | _ => st
      end
  | EvError err =>
      let st := clear_timeout st in
      if bool_decide (errno_code err = Some "ENOENT")
      then reject (NewError (not_found_message cmd)) st
      else reject (Errno err) st
  | EvClose code =>
      let st := clear_timeout st in
      resolve (mkRunResult (nullish code 0%Z) (stdout_acc st) (stderr_acc st)) st
  end.

Definition deliver (cmd : string) (st : RunState) (evs : list Event)
  : RunState :=
  fold_left (handle cmd) evs st.

(** What the runtime does with the child: [spawn] throws, or it returns
    a child for which the events arrive in the given order. *)
Inductive Child : Type :=
| SpawnThrows (e : error)
| Events (evs : list Event).

(** [run(cmd, args, opts)] up to the state reached when the given events
    have been delivered. An executor that throws rejects the promise. When
    the resolution step does not settle, the executor is never run. The
    [effects] of the state are those of the executor and of the
    listeners; the call of [spawn] that the resolution step makes before
    is [resolution_spawns]. *)
Definition run_state (m : Machine) (cmd : string) (args : list string)
    (opts : RunOptions) (evs : list Event) : fate RunState :=
  match resolve_invocation m cmd args with
  | Settles (Fulfilled inv) => Settles (Fulfilled (deliver cmd (start opts inv) evs))
  | Settles (Rejected e) => Settles (Rejected e)
  | Uncaught e => Uncaught e
  | NeverSettles => NeverSettles
  end.

Definition run (m : Machine) (cmd : string) (args : list string)
    (opts : RunOptions) (child : Child) : Promise :=
  match child with
  | SpawnThrows e =>
      match resolve_invocation m cmd args with
      | Settles (Fulfilled _) => Settled (Rejected e)
      | Settles (Rejected e') => Settled (Rejected e')
      | Uncaught _ | NeverSettles => Pending
      end
  | Events evs =>
      match run_state m cmd args opts evs with
      | Settles (Fulfilled st) => promise st
      | Settles (Rejected e) => Settled (Rejected e)
      | Uncaught _ | NeverSettles => Pending
      end
  end.

(** The command and arguments of the [spawn] call that [run] makes for the
    child, read off the first effect of the executor. *)
Definition spawned (m : Machine) (cmd : string) (args : list string)
    (opts : RunOptions) (evs : list Event) : option (string * list string) :=
  match run_state m cmd args opts evs with
  | Settles (Fulfilled st) =>
      match effects st with
      | Spawn command arguments _ :: _ => Some (command, arguments)
      | _ => None
      end
  | _ => None
  end.

(** Line 26: the call of [spawn] that the resolution step makes, on
    Windows for the bare name, before anything else is spawned. *)
Definition resolution_spawns (m : Machine) (cmd : string) : list effect :=
  if String.eqb (platform (host m)) "win32" && String.eqb cmd "agent"
  then [Spawn "where" ["agent"] (mkSpawnOptions None (Ignore, Pipe, Ignore) true)]
  else [].

(** Everything that one call of [run] does, in order. *)
Definition run_trace (m : Machine) (cmd : string) (args : list string)
    (opts : RunOptions) (evs : list Event) : list effect :=
  resolution_spawns m cmd
  ++ match run_state m cmd args opts evs with
     | Settles (Fulfilled st) => effects st
     | _ => []
     end.

(** The chunks of each stream among the events, in arrival order. *)
Definition stdout_chunks (evs : list Event) : list string :=
  omap (fun ev => match ev with EvStdout c => Some c | _ => None end) evs.

Definition stderr_chunks (evs : list Event) : list string :=
  omap (fun ev => match ev with EvStderr c => Some c | _ => None end) evs.

(** ['error'] and ['close'] are the events whose listeners settle. *)
Definition settles (ev : Event) : bool :=
  match ev with
  | EvError _ | EvClose _ => true
  | _ => false
  end.

(** An event that leaves the promise alone: a chunk or the timer. *)
Definition quiet (ev : Event) : Prop := settles ev = false.

(** A chunk of output. *)
Definition is_chunk (ev : Event) : bool :=
  match ev with
  | EvStdout _ | EvStderr _ => true
  | _ => false
  end.

(** The timer is pending. *)
Definition armed (t : Timer) : bool :=
  match t with
  | Armed _ => true
  | _ => false
  end.

(** [Boolean(timeout)]: a timer object was made. *)
Definition has_timer (t : Timer) : bool :=
  match t with
  | NoTimer => false
  | _ => true
  end.


Definition is_settle (e : effect) : bool :=
  match e with
  | Resolve _ | Reject _ => true
  | _ => false
  end.

Definition is_kill (e : effect) : bool :=
  match e with
  | Kill _ => true
  | _ => false
  end.

End Process.

(** ** [opencode-plugin-cursor/src/index.ts] *)
Module Plugin.
Import Js.

(** [getCursorAgentBin], as a function of [process.env]. *)
Definition getCursorAgentBin (env : gmap string string) : string :=
  or_else
    (or_opt
       (or_opt (env !! "CURSOR_AGENT_BIN") (env !! "CURSOR_CLI_BIN"))
       (env !! "CURSOR_CLI_PATH"))
    "agent".

(** The environment variables through which the repository lets a
    caller name another agent binary. *)
Definition bin_variables : list string :=
  ["CURSOR_AGENT_BIN"; "CURSOR_CLI_BIN"; "CURSOR_CLI_PATH"].

(** Every environment variable that the two files read or mention. *)
Definition known_variables : list string :=
  bin_variables
    ++ ["COMSPEC"; "OPENCODE_DIRECTORY"; "OPENCODE_WORKSPACE"; "INIT_CWD";
        "PWD"; "CURSOR_BRIDGE_WORKSPACE"].

(** The variables that a message names. *)
Definition named_variables (message : string) : list string :=
  filter (fun v => includes v message = true) known_variables.

End Plugin.

(** ** Sample surroundings *)
Module Examples.
Import Js Process.

(** Path functions for the samples. They agree with [path.win32] on the
    normalised absolute paths that the samples use. *)
Definition win_join (parts : list string) : string :=
  String.concat "\" parts.

Fixpoint before_last_separator (s : string) : option string :=
  match s with
  | EmptyString => None
  | String c s' =>
      match before_last_separator s' with
      | Some d => Some (String c d)
      | None => if Ascii.eqb c "\" then Some EmptyString else None
      end
  end.

Definition win_dirname (s : string) : string :=
  match before_last_separator s with
  | Some d => d
  | None => "."
  end.

Definition EACCES : error :=
  Errno (mkErrno (Some "EACCES") "EACCES: permission denied, scandir").

(** A Windows machine with the agent installed in [C:\tools]. *)
Definition windows (listing : outcome (list string)) : Host :=
  mkHost "win32" (<["COMSPEC" := "C:\Windows\system32\cmd.exe"]> ∅)
    win_dirname win_join
    (Fulfilled ["C:\tools\agent.cmd" +:+ String CR (String LF "")])
    (fun _ => listing).

Definition two_versions : list string :=
  ["2024.1.2-abc123"; "2024.10.1-def456"].

(** A machine on which the resolution step does not apply. *)
Definition linux : Host :=
  mkHost "linux" ∅ win_dirname win_join (Fulfilled [])
    (fun _ => Rejected EACCES).

Definition no_options : RunOptions := mkRunOptions None None None.

Definition ENOENT : ErrnoException :=
  mkErrno (Some "ENOENT") "spawn agent ENOENT".

Definition EPERM : ErrnoException :=
  mkErrno (Some "EPERM") "spawn EPERM".

Definition where_ENOENT : ErrnoException :=
  mkErrno (Some "ENOENT") "spawn where ENOENT".

(** The Windows machine on which [where] cannot be started: the child
    emits ['error']. *)
Definition windows_without_where : Machine :=
  mkMachine (windows (Fulfilled two_versions)) (WhereFails where_ENOENT).

(** The Windows machine on which [where] never closes. *)
Definition windows_where_hangs : Machine :=
  mkMachine (windows (Fulfilled two_versions)) WhereSilent.

End Examples.

(** ** [opencode-plugin-cursor/src/index.ts]: the workspace root and the
       entry point of the plugin *)
Module Workspace.
Import Js.

(** What these functions read from their surroundings: [process.env],
    [path.sep], [path.resolve] (for the current directory of the process)
    and, for [stat], the answer of [isDirectory()] on the [Stats] object
    or the error that [stat] rejects with. *)
Record Host : Type := mkHost {
  env : gmap string string;
  sep : string;
  resolve : string -> string;
  stat : string -> outcome bool;
}.

(** [isDirectory] *)
Definition isDirectory (h : Host) (p : string) : outcome bool :=
  async (
    try_catch
      (let* is_dir := await (stat h p) in Return is_dir)
      (fun _ => Return false)).

(** [looksLikeTempDir] *)
Definition looksLikeTempDir (h : Host) (p : string) : bool :=
  let normalized := resolve h p in
  if includes (sep h +:+ "T" +:+ sep h) normalized then true
  else if includes "cursor-openai-bridge-" normalized then true
  else if includes "cursor-opencode-worktree-" normalized then true
  else false.

(** [typeof v === "string" && v.trim().length > 0] *)
Definition is_candidate (v : option string) : bool :=
  match v with
  | Some s => (0 <? String.length (trim s))%nat
  | None => false
  end.

(** [values.filter(v => typeof v === "string" && v.trim().length > 0)] *)
Definition keep_candidates (values : list (option string)) : list string :=
  omap (fun v => if is_candidate v then v else None) values.

(** The first loop of [resolveWorkspaceRoot] (lines 32-35). *)
Fixpoint first_directory (h : Host) (candidates : list string)
  : completion string unit :=
  match candidates with
  | [] => Normal tt
  | cand :: rest =>
      let resolved := resolve h cand in
      let* is_dir := await (isDirectory h resolved) in
      if is_dir then Return resolved else first_directory h rest
  end.

(** The second loop (lines 43-47): a candidate that looks like a
    temporary directory is passed over. *)
Fixpoint first_real_directory (h : Host) (candidates : list string)
  : completion string unit :=
  match candidates with
  | [] => Normal tt
  | cand :: rest =>
      let resolved := resolve h cand in
      if looksLikeTempDir h resolved then first_real_directory h rest
      else
        let* is_dir := await (isDirectory h resolved) in
        if is_dir then Return resolved else first_real_directory h rest
  end.

Definition no_workspace_message : string :=
  "Could not determine a real workspace directory (got a temp cwd). "
    +:+ "Set CURSOR_BRIDGE_WORKSPACE to your project path, or ensure OpenCode passes directory/worktree to the plugin.".

(** [resolveWorkspaceRoot({ directory, worktree })] *)
Definition resolveWorkspaceRoot (h : Host) (directory worktree : option string)
  : outcome string :=
  async (
    let preferred := keep_candidates [worktree; directory] in
    let* _ := first_directory h preferred in
    let envCandidates :=
      keep_candidates
        [env h !! "OPENCODE_DIRECTORY"; env h !! "OPENCODE_WORKSPACE";
         env h !! "INIT_CWD"; env h !! "PWD"] in
    let* _ := first_real_directory h envCandidates in
    Throw (NewError no_workspace_message)).

(** The functions that [CursorPlugin] imports from the other files of the
    package, as far as it depends on them: the two promises it awaits and
    the three tool tables it merges. *)
Record Collaborators (Tool : Type) : Type := mkCollaborators {
  ensurePluginShowsVersionInStatus : outcome unit;
  ensureBridgeProcess : string -> string -> outcome unit;
  createBridgeTools : string -> string -> gmap string Tool;
  createCliTools : string -> string -> option string -> gmap string Tool;
  createCloudTools : string -> gmap string Tool;
}.
Arguments ensurePluginShowsVersionInStatus {Tool} _.
Arguments ensureBridgeProcess {Tool} _ _ _.
Arguments createBridgeTools {Tool} _ _ _.
Arguments createCliTools {Tool} _ _ _ _.
Arguments createCloudTools {Tool} _ _.

(** The calls that [CursorPlugin] awaits, in order. *)
Inductive call : Type :=
| StatusShim
| BridgeProcess (agentBin cwd : string).

(** [{ ...a, ...b, ...c }]: a later table overrides an earlier one. *)
Definition spread3 {Tool} (a b c : gmap string Tool) : gmap string Tool :=
  c ∪ (b ∪ a).

(** [CursorPlugin({ client, directory, worktree })]: the calls made and the
    [tool] table of the hooks it resolves to. *)
Definition CursorPlugin {Tool} (h : Host) (c : Collaborators Tool)
    (directory worktree : option string)
  : list call * outcome (gmap string Tool) :=
  let agentBin := Plugin.getCursorAgentBin (env h) in
  match resolveWorkspaceRoot h directory worktree with
  | Rejected e => ([], Rejected e)
  | Fulfilled cwd =>
      let repoRoot := or_opt worktree None in
      let shim :=
        promise_catch (ensurePluginShowsVersionInStatus c) (fun _ => tt) in
      match shim with
      | Rejected e => ([StatusShim], Rejected e)
      | Fulfilled _ =>
          match ensureBridgeProcess c agentBin cwd with
          | Rejected e => ([StatusShim; BridgeProcess agentBin cwd], Rejected e)
          | Fulfilled _ =>
              ([StatusShim; BridgeProcess agentBin cwd],
               Fulfilled
                 (spread3 (createBridgeTools c agentBin cwd)
                    (createCliTools c agentBin cwd repoRoot)
                    (createCloudTools c cwd)))
          end
      end
  end.

End Workspace.

(** ** What a run is observed to do *)
Module Observations.
Import Js Process.

(** The effects that the listeners and the timer callback can have. *)
Definition listener_effect (e : effect) : bool :=
  match e with
  | ClearTimeout | Kill _ | Resolve _ | Reject _ => true
  | _ => false
  end.

(** The number that a string of decimal digits writes. *)
Definition digit (c : ascii) : nat := nat_of_ascii c - 48.

Fixpoint decimal (s : string) : nat :=
  match s with
  | EmptyString => 0
  | String c s' => digit c * 10 ^ String.length s' + decimal s'
  end.

(** A version name put together from its parts, and what makes the parts
    fit the version pattern. *)
Definition version_name (year month day build : string) : string :=
  year +:+ "." +:+ month +:+ "." +:+ day +:+ "-" +:+ build.

Definition version_parts (year month day build : string) : Prop :=
  (String.length year = 4 /\ all_chars Regex.is_digit year) /\
  (1 <= String.length month <= 2 /\ all_chars Regex.is_digit month) /\
  (1 <= String.length day <= 2 /\ all_chars Regex.is_digit day) /\
  (1 <= String.length build /\ all_chars Regex.is_lower_hex build).

(** Calendar order of dates given as year, month and day. *)
Definition date_le (a b : nat * nat * nat) : Prop :=
  match a, b with
  | (y, m, d), (y', m', d') =>
      y < y' \/ (y = y' /\ (m < m' \/ (m = m' /\ d <= d')))
  end.

(** Neither CR nor LF occurs in a string. *)
Definition no_line_break (s : string) : Prop :=
  all_chars (fun c => negb (Ascii.eqb c CR) && negb (Ascii.eqb c LF)) s.

(** A line break as [/\r?\n/] matches it. *)
Definition line_break (s : string) : Prop :=
  s = String CR (String LF "") \/ s = String LF "".

(** The timer expires among the events. *)
Definition timer_expires (evs : list Event) : bool :=
  existsb (fun ev => match ev with EvTimeout => true | _ => false end) evs.

(** How often the child was sent a signal. *)
Definition kills (l : list effect) : nat :=
  length (filter (fun e => is_kill e = true) l).

(** A candidate of the first loop is taken when its resolved path is a
    directory; one of the second loop must also not look temporary. *)
Definition accepted (h : Workspace.Host) (cand : string) : bool :=
  match Workspace.stat h (Workspace.resolve h cand) with
  | Fulfilled true => true
  | _ => false
  end.

Definition accepted_from_env (h : Workspace.Host) (cand : string) : bool :=
  negb (Workspace.looksLikeTempDir h (Workspace.resolve h cand))
  && accepted h cand.

(** The same surroundings with another environment. *)
Definition with_env (h : Workspace.Host) (vars : gmap string string)
  : Workspace.Host :=
  Workspace.mkHost vars (Workspace.sep h) (Workspace.resolve h)
    (Workspace.stat h).

(** The variables that [resolveWorkspaceRoot] reads, in its order. *)
Definition workspace_variables : list string :=
  ["OPENCODE_DIRECTORY"; "OPENCODE_WORKSPACE"; "INIT_CWD"; "PWD"].

(** A sample project directory under [/home/dev], with a temporary
    directory of the bridge beside it. *)
Definition posix_resolve (p : string) : string :=
  if String.prefix "/" p then p else "/home/dev/" +:+ p.

Definition dev_machine (vars : gmap string string) : Workspace.Host :=
  Workspace.mkHost vars "/" posix_resolve
    (fun p =>
       if String.eqb p "/home/dev/project" then Fulfilled true
       else if String.eqb p "/tmp/cursor-openai-bridge-7f3a" then Fulfilled true
       else if String.eqb p "/home/dev/notes.txt" then Fulfilled false
       else Rejected (Errno (mkErrno (Some "ENOENT") "ENOENT: no such file or directory, stat"))).

(** Sample collaborators: the status shim fails, the bridge starts, and
    the three tool sets overlap in one name. *)
Definition sample_collaborators : Workspace.Collaborators string :=
  Workspace.mkCollaborators string
    (Rejected (NewError "cannot write the plugin shim"))
    (fun _ _ => Fulfilled tt)
    (fun _ _ => <["ask" := "bridge"]> (<["models" := "bridge"]> ∅))
    (fun _ _ _ => <["ask" := "cli"]> ∅)
    (fun _ => <["agents" := "cloud"]> ∅).

End Observations.

(** * Properties *)

Import Js Process.

(** ** Worked examples *)

Example versions_keeps_matching_names :
  versions ["2024.1.2-abc123"; "notes.txt"; "2024.10.1-def456";
            "2024.1.2-ABC"; "20244.1.2-a"; "2024.123.2-a"; "2024.1.2-";
            "2023.12.31-00ff"]
  = ["2024.10.1-def456"; "2024.1.2-abc123"; "2023.12.31-00ff"].
Proof. vm_compute. reflexivity. Qed.

Example endsWith_examples :
  endsWith "C:\tools\agent.cmd" "agent.cmd" = true /\
  endsWith "agent" "agent.cmd" = false /\
  endsWith "run.bat" ".bat" = true /\
  endsWith "cmd" ".cmd" = false.
Proof. vm_compute. done. Qed.

Example where_output_first_line :
  first_line
    (trim (concat_chunks
             ["C:\tools\ag";
              "ent.cmd" +:+ String CR (String LF "D:\other\agent.cmd")
                +:+ String CR (String LF "")]))
  = "C:\tools\agent.cmd".
Proof. vm_compute. reflexivity. Qed.

Example bare_agent_is_redirected :
  resolve_invocation (Examples.windows (Fulfilled Examples.two_versions))
    "agent" ["-p"; "hi"]
  = Fulfilled
      (mkInvocation "C:\tools\versions\2024.10.1-def456\node.exe"
         ["C:\tools\versions\2024.10.1-def456\index.js"; "-p"; "hi"]).
Proof. vm_compute. reflexivity. Qed.

Example unreadable_versions_fall_back_to_shell :
  resolve_invocation (Examples.windows (Rejected Examples.EACCES))
    "agent" ["-p"; "hi"]
  = Fulfilled
      (mkInvocation "C:\Windows\system32\cmd.exe"
         ["/d"; "/s"; "/c"; "agent"; "-p"; "hi"]).
Proof. vm_compute. reflexivity. Qed.

Example killed_child_still_resolves :
  run Examples.linux "agent" []
    (mkRunOptions None (Some (Finite 250)) None)
    (Events [EvStdout "par"; EvTimeout; EvStdout "tial"; EvClose None])
  = Settled (Fulfilled (mkRunResult 0 "partial" "")).
Proof. vm_compute. reflexivity. Qed.

Example close_after_error_changes_nothing :
  run Examples.linux "agent" [] Examples.no_options
    (Events [EvError Examples.EPERM; EvClose (Some 1%Z)])
  = Settled (Rejected (Errno Examples.EPERM)).
Proof. vm_compute. reflexivity. Qed.

Example where_that_never_closes_leaves_run_waiting :
  resolveWindowsCursorAgent Examples.windows_where_hangs "agent" = NeverSettles /\
  run Examples.windows_where_hangs "agent" [] Examples.no_options
    (Events [EvClose (Some 0%Z)]) = Pending /\
  run Examples.windows_where_hangs "C:\tools\agent.cmd" [] Examples.no_options
    (Events [EvClose (Some 0%Z)])
  = Settled (Fulfilled (mkRunResult 0 "" "")).
Proof. vm_compute. done. Qed.

Example empty_agent_bin_is_skipped :
  Plugin.getCursorAgentBin
    (<["CURSOR_AGENT_BIN" := ""]> (<["CURSOR_CLI_PATH" := "/usr/bin/cursor"]> ∅))
  = "/usr/bin/cursor".
Proof. vm_compute. reflexivity. Qed.

(** ** The matcher decides the language of the pattern *)
Section RegexCorrect.
Import Regex.

Lemma string_app_cons c (s t : string) : String c s +:+ t = String c (s +:+ t).
Proof. reflexivity. Qed.

Lemma string_app_nil_l (s : string) : "" +:+ s = s.
Proof. reflexivity. Qed.

Lemma string_app_nil_r (s : string) : s +:+ "" = s.
Proof. induction s as [|c s IH]; [done | by rewrite string_app_cons, IH]. Qed.

Lemma string_app_assoc (a b c : string) : (a +:+ b) +:+ c = a +:+ (b +:+ c).
Proof. induction a as [|x a IH]; [done | by rewrite !string_app_cons, IH]. Qed.

Lemma string_app_eq_nil (a b : string) : a +:+ b = "" -> a = "" /\ b = "".
Proof. destruct a; [done | discriminate]. Qed.

Lemma nullable_spec r : nullable r = true <-> Matches r "".
Proof.
  induction r as [| |p|r1 IH1 r2 IH2|r1 IH1 r2 IH2|r IH]; simpl.
  - split; [discriminate | inversion 1].
  - split; [constructor | done].
  - split; [discriminate | inversion 1].
  - rewrite andb_true_iff, IH1, IH2. split.
    + intros [H1 H2]. exact (MCat _ _ "" "" H1 H2).
    + inversion 1 as [| |? ? s1 s2 H1 H2 E1 E2| | | |]; subst.
      apply string_app_eq_nil in E2 as [-> ->]. done.
  - rewrite orb_true_iff, IH1, IH2. split.
    + intros [H|H]; [by apply MAltL | by apply MAltR].
    + inversion 1; subst; auto.
  - split; [constructor | done].
Qed.

(** A nonempty word of a starred pattern starts with a nonempty word of
    the pattern. *)
Lemma star_cons_inv r c s :
  Matches (Star r) (String c s) ->
  exists s1 s2, s = s1 +:+ s2 /\ Matches r (String c s1) /\ Matches (Star r) s2.
Proof.
  intros H. remember (Star r) as r' eqn:Er. remember (String c s) as w eqn:Ew.
  revert s Ew.
  induction H as [| | | | | |r0 s1 s2 H1 _ H2 IH2]; intros w Ew; try discriminate.
  injection Er as ->. destruct s1 as [|c1 s1]; [rewrite string_app_nil_l in Ew | rewrite string_app_cons in Ew].
  - by apply IH2.
  - injection Ew as -> <-. exists s1, s2. done.
Qed.

Lemma deriv_spec c r s : Matches (deriv c r) s <-> Matches r (String c s).
Proof.
  revert s.
  induction r as [| |p|r1 IH1 r2 IH2|r1 IH1 r2 IH2|r IH]; intros s; simpl.
  - split; inversion 1.
  - split; inversion 1.
  - destruct (p c) eqn:Hp; split.
    + inversion 1; subst. by constructor.
    + inversion 1; subst. constructor.
    + inversion 1.
    + inversion 1; subst. congruence.
  - assert (Hcat : Matches (Cat (deriv c r1) r2) s -> Matches (Cat r1 r2) (String c s)).
    { inversion 1 as [| |? ? s1 s2 H1 H2| | | |]; subst.
      apply IH1 in H1. exact (MCat _ _ (String c s1) s2 H1 H2). }
    assert (Hinv : Matches (Cat r1 r2) (String c s) ->
                   Matches (Cat (deriv c r1) r2) s \/
                   (Matches r1 "" /\ Matches (deriv c r2) s)).
    { inversion 1 as [| |? ? s1 s2 H1 H2 E1 E2| | | |]; subst.
      destruct s1 as [|c1 s1]; [rewrite string_app_nil_l in E2 | rewrite string_app_cons in E2].
      - right. subst s2. split; [done | by apply IH2].
      - injection E2 as -> <-. left. constructor; [by apply IH1 | done]. }
    destruct (nullable r1) eqn:Hn; split.
    + inversion 1; subst; [by apply Hcat |].
      apply nullable_spec in Hn.
      match goal with H : Matches (deriv c r2) s |- _ => apply IH2 in H;
        exact (MCat _ _ "" _ Hn H) end.
    + intros H. destruct (Hinv H) as [H'|[_ H']]; [by apply MAltL | by apply MAltR].
    + apply Hcat.
    + intros H. destruct (Hinv H) as [H'|[H' _]]; [done |].
      apply nullable_spec in H'. congruence.
  - split.
    + inversion 1; subst; [apply MAltL | apply MAltR]; by (apply IH1 || apply IH2).
    + inversion 1; subst; [apply MAltL | apply MAltR]; by (apply IH1 || apply IH2).
  - split.
    + inversion 1 as [| |? ? s1 s2 H1 H2| | | |]; subst.
      apply IH in H1. exact (MStarApp _ (String c s1) s2 H1 H2).
    + intros H. apply star_cons_inv in H as (s1 & s2 & -> & H1 & H2).
      constructor; [by apply IH | done].
Qed.

Theorem test_spec r s : test r s = true <-> Matches r s.
Proof.
  revert r. induction s as [|c s IH]; intros r; simpl.
  - apply nullable_spec.
  - rewrite IH. apply deriv_spec.
Qed.
End RegexCorrect.

(** ** The version pattern *)
Section VersionPattern.
Import Regex.

Lemma Matches_cat r1 r2 s :
  Matches (Cat r1 r2) s <->
  exists s1 s2, s = s1 +:+ s2 /\ Matches r1 s1 /\ Matches r2 s2.
Proof.
  split.
  - inversion 1; subst; eauto.
  - intros (s1 & s2 & -> & H1 & H2). by constructor.
Qed.

Lemma Matches_class p s :
  Matches (Class p) s <-> exists c, s = String c "" /\ p c = true.
Proof.
  split.
  - inversion 1; subst; eauto.
  - intros (c & -> & Hp). by constructor.
Qed.

Lemma Matches_lit c s : Matches (Lit c) s <-> s = String c "".
Proof.
  unfold Lit. rewrite Matches_class. split.
  - intros (c' & -> & Hc). apply Ascii.eqb_eq in Hc. by subst.
  - intros ->. exists c. split; [done | apply Ascii.eqb_refl].
Qed.

Lemma all_chars_nil p : all_chars p "".
Proof. constructor. Qed.

Lemma all_chars_cons p c s :
  all_chars p (String c s) <-> p c = true /\ all_chars p s.
Proof.
  unfold all_chars. simpl. split.
  - inversion 1; subst. done.
  - intros [Hc Hs]. by constructor.
Qed.

Lemma Matches_times p n s :
  Matches (Times n (Class p)) s <-> String.length s = n /\ all_chars p s.
Proof.
  revert s. induction n as [|n IH]; intros s; simpl.
  - split.
    + inversion 1; subst. split; [done | apply all_chars_nil].
    + intros [Hl _]. destruct s; [constructor | discriminate].
  - rewrite Matches_cat. split.
    + intros (s1 & s2 & -> & H1 & H2).
      apply Matches_class in H1 as (c & -> & Hp). apply IH in H2 as [Hl Ha].
      rewrite string_app_cons, string_app_nil_l, all_chars_cons. simpl. auto.
    + intros [Hl Ha]. destruct s as [|c s]; [discriminate |].
      apply all_chars_cons in Ha as [Hp Ha]. simpl in Hl.
      exists (String c ""), s. split; [done |]. split.
      * by constructor.
      * apply IH. split; [lia | done].
Qed.

Lemma Matches_one_or_two p s :
  Matches (Cat (Class p) (Opt (Class p))) s <->
  1 <= String.length s <= 2 /\ all_chars p s.
Proof.
  rewrite Matches_cat. split.
  - intros (s1 & s2 & -> & H1 & H2).
    apply Matches_class in H1 as (c & -> & Hp).
    rewrite string_app_cons, string_app_nil_l, all_chars_cons.
    inversion H2 as [| | |? ? ? H|? ? ? H| |]; subst.
    + inversion H; subst. simpl. split; [lia | split; [done | apply all_chars_nil]].
    + apply Matches_class in H as (c' & -> & Hp'). simpl.
      split; [lia |]. rewrite all_chars_cons. auto using all_chars_nil.
  - intros [Hl Ha]. destruct s as [|c s]; [simpl in Hl; lia |].
    apply all_chars_cons in Ha as [Hp Ha].
    exists (String c ""), s. split; [done |]. split; [by constructor |].
    destruct s as [|c' s].
    + apply MAltL. constructor.
    + destruct s; [| simpl in Hl; lia].
      apply all_chars_cons in Ha as [Hp' _]. apply MAltR. by constructor.
Qed.

Lemma Matches_star_class p s :
  Matches (Star (Class p)) s <-> all_chars p s.
Proof.
  split.
  - intros H. remember (Star (Class p)) as r eqn:Er.
    induction H as [| | | | | |r0 s1 s2 H1 _ H2 IH2]; try discriminate.
    + apply all_chars_nil.
    + injection Er as ->. apply Matches_class in H1 as (c & -> & Hp).
      rewrite string_app_cons, string_app_nil_l, all_chars_cons. auto.
  - induction s as [|c s IH]; intros Ha.
    + constructor.
    + apply all_chars_cons in Ha as [Hp Ha].
      apply (MStarApp _ (String c "") s); [by constructor | auto].
Qed.

Lemma Matches_plus_class p s :
  Matches (Plus (Class p)) s <-> 1 <= String.length s /\ all_chars p s.
Proof.
  unfold Plus. rewrite Matches_cat. split.
  - intros (s1 & s2 & -> & H1 & H2).
    apply Matches_class in H1 as (c & -> & Hp). apply Matches_star_class in H2.
    rewrite string_app_cons, string_app_nil_l, all_chars_cons. simpl.
    split; [lia | done].
  - intros [Hl Ha]. destruct s as [|c s]; [simpl in Hl; lia |].
    apply all_chars_cons in Ha as [Hp Ha].
    exists (String c ""), s. split; [done |].
    split; [by constructor | by apply Matches_star_class].
Qed.

(** The pattern of the source accepts exactly the names of the form
    year.month.day-build. *)
Lemma version_re_spec s :
  test version_re s = true <-> is_version_name s.
Proof.
  rewrite test_spec. unfold version_re, is_version_name. split.
  - intros H.
    apply Matches_cat in H as (y & s1 & -> & Hy & H).
    apply Matches_cat in H as (dot1 & s2 & -> & Hd1 & H).
    apply Matches_cat in H as (m & s3 & -> & Hm & H).
    apply Matches_cat in H as (dot2 & s4 & -> & Hd2 & H).
    apply Matches_cat in H as (d & s5 & -> & Hd & H).
    apply Matches_cat in H as (dash & b & -> & Hdash & Hb).
    apply Matches_lit in Hd1 as ->. apply Matches_lit in Hd2 as ->.
    apply Matches_lit in Hdash as ->.
    apply Matches_times in Hy. apply Matches_one_or_two in Hm.
    apply Matches_one_or_two in Hd. apply Matches_plus_class in Hb.
    exists y, m, d, b. done.
  - intros (y & m & d & b & -> & Hy & Hm & Hd & Hb).
    apply Matches_cat. exists y, ("." +:+ m +:+ "." +:+ d +:+ "-" +:+ b).
    split; [done |]. split; [by apply Matches_times |].
    apply Matches_cat. exists ".", (m +:+ "." +:+ d +:+ "-" +:+ b).
    split; [done |]. split; [by apply Matches_lit |].
    apply Matches_cat. exists m, ("." +:+ d +:+ "-" +:+ b).
    split; [done |]. split; [by apply Matches_one_or_two |].
    apply Matches_cat. exists ".", (d +:+ "-" +:+ b).
    split; [done |]. split; [by apply Matches_lit |].
    apply Matches_cat. exists d, ("-" +:+ b).
    split; [done |]. split; [by apply Matches_one_or_two |].
    apply Matches_cat. exists "-", b.
    split; [done |]. split; [by apply Matches_lit | by apply Matches_plus_class].
Qed.
End VersionPattern.

(** ** Selection of the latest version *)
Section Latest.

Lemma String_le_refl (s : string) : String.le s s.
Proof. reflexivity. Qed.

Lemma sort_spec (l : list string) :
  StronglySorted String.le (sort l) /\ sort l ≡ₚ l.
Proof.
  split.
  - apply StronglySorted_merge_sort; apply _.
  - apply merge_sort_Permutation.
Qed.

Lemma versions_elem_of (entries : list string) (e : string) :
  e ∈ versions entries <-> e ∈ entries /\ Regex.test version_re e = true.
Proof.
  unfold versions. rewrite elem_of_reverse.
  destruct (sort_spec (filter (fun name => Regex.test version_re name = true) entries))
    as [_ Hperm].
  rewrite Hperm, list_elem_of_filter. tauto.
Qed.

Lemma versions_head_greatest (entries : list string) (latest : string) :
  head (versions entries) = Some latest ->
  forall e, e ∈ versions entries -> String.le e latest.
Proof.
  unfold versions.
  set (l := sort _). intros Hhead e He.
  rewrite head_reverse in Hhead. apply last_Some in Hhead as [l' Hl].
  rewrite elem_of_reverse, Hl in He.
  assert (Hs : StronglySorted String.le (l' ++ [latest])).
  { rewrite <- Hl. apply sort_spec. }
  apply elem_of_app in He as [He|He].
  - eapply StronglySorted_app_1_elem_of; [exact Hs | exact He | apply list_elem_of_singleton; done].
  - apply list_elem_of_singleton in He as ->. apply String_le_refl.
Qed.

End Latest.

Section Resolution.

(** A command that ends in [agent.cmd] is not the bare name. *)
Lemma endsWith_agent_cmd_not_bare (cmd : string) :
  endsWith cmd "agent.cmd" = true -> String.eqb cmd "agent" = false.
Proof.
  intros H. destruct (String.eqb_spec cmd "agent") as [->|]; [| done].
  vm_compute in H. discriminate.
Qed.

(** The function by cases, on every machine. *)
Lemma resolve_cases (m : Machine) (cmd : string) :
  resolveWindowsCursorAgent m cmd =
  if negb (String.eqb (platform (host m)) "win32")
  then Settles (Fulfilled None) else
  if negb (endsWith cmd "agent.cmd") && negb (String.eqb cmd "agent")
  then Settles (Fulfilled None) else
  if String.eqb cmd "agent" then
    match where_promise m with
    | Settles (Fulfilled chunks) =>
        let out := first_line (trim (concat_chunks chunks)) in
        if truthy out && endsWith out "agent.cmd"
        then Settles (from_listing (host m) out
               (match readdir (host m)
                        (join (host m) [dirname (host m) out; "versions"]) with
                | Fulfilled entries => entries
                | Rejected _ => []
                end))
        else Settles (Fulfilled None)
    | Settles (Rejected _) => Settles (Fulfilled None)
    | Uncaught e => Uncaught e
    | NeverSettles => NeverSettles
    end
  else
    Settles (from_listing (host m) cmd
      (match readdir (host m)
               (join (host m) [dirname (host m) cmd; "versions"]) with
       | Fulfilled entries => entries
       | Rejected _ => []
       end)).
Proof.
  unfold resolveWindowsCursorAgent, from_listing.
  destruct (negb (String.eqb (platform (host m)) "win32")); [done |].
  destruct (negb (endsWith cmd "agent.cmd") && negb (String.eqb cmd "agent"));
    [done |].
  destruct (String.eqb cmd "agent").
  - destruct (where_promise m) as [[chunks|e]|e|]; simpl; try done.
    destruct (truthy _ && endsWith _ "agent.cmd"); simpl; [| done].
    destruct (readdir (host m) _) as [entries|e]; simpl.
    + by destruct (versions entries).
    + done.
  - simpl. destruct (readdir (host m) _) as [entries|e]; simpl.
    + by destruct (versions entries).
    + done.
Qed.

(** On a host whose [where] child reports, the promise of line 27 is the
    one of the host. *)
Lemma where_promise_host (h : Host) :
  where_promise h = Settles (where_agent h).
Proof. reflexivity. Qed.

Lemma resolve_wrapper_path (h : Host) (cmd : string) :
  platform h = "win32" ->
  endsWith cmd "agent.cmd" = true ->
  resolveWindowsCursorAgent h cmd =
  from_listing h cmd
    (match readdir h (join h [dirname h cmd; "versions"]) with
     | Fulfilled entries => entries
     | Rejected _ => []
     end).
Proof.
  intros Hp Hc. rewrite resolve_cases. cbn [host well_behaved].
  by rewrite Hp, Hc, (endsWith_agent_cmd_not_bare cmd Hc).
Qed.

Lemma resolve_bare_name (h : Host) (chunks : list string) :
  platform h = "win32" ->
  where_agent h = Fulfilled chunks ->
  let out := first_line (trim (concat_chunks chunks)) in
  resolveWindowsCursorAgent h "agent" =
  if truthy out && endsWith out "agent.cmd"
  then from_listing h out
         (match readdir h (join h [dirname h out; "versions"]) with
          | Fulfilled entries => entries
          | Rejected _ => []
          end)
  else Fulfilled None.
Proof.
  intros Hp Hw out. rewrite resolve_cases, where_promise_host.
  cbn [host well_behaved]. rewrite Hp, Hw. simpl. fold out.
  by destruct (truthy out && endsWith out "agent.cmd").
Qed.

End Resolution.

(** ** C3: the latest version is the greatest matching name *)

(** C3. Among the entries of the listing that match the version pattern
    (four-digit year, dot, month of one or two digits, dot, day of one or
    two digits, hyphen, lower-case hexadecimal build id) the one selected
    as [latest] is the greatest in the code-unit order of strings, and it
    is the directory from which [node.exe] and [index.js] are taken. For
    the listing that holds exactly [2024.1.2-abc123] and
    [2024.10.1-def456], in either order, the latest is
    [2024.10.1-def456]. *)
Theorem latest_is_greatest_matching_entry
    (h : Host) (cmd : string) (entries : list string) (latest : string) :
  head (versions entries) = Some latest ->
  (latest ∈ entries /\ is_version_name latest /\
   forall e, e ∈ entries -> is_version_name e -> String.le e latest) /\
  (platform h = "win32" ->
   endsWith cmd "agent.cmd" = true ->
   readdir h (join h [dirname h cmd; "versions"]) = Fulfilled entries ->
   let versionsDir := join h [dirname h cmd; "versions"] in
   resolveWindowsCursorAgent h cmd =
   Fulfilled (Some (mkResolved (join h [versionsDir; latest; "node.exe"])
                      [join h [versionsDir; latest; "index.js"]]))) /\
  (forall chunks,
   platform h = "win32" ->
   where_agent h = Fulfilled chunks ->
   let out := first_line (trim (concat_chunks chunks)) in
   truthy out && endsWith out "agent.cmd" = true ->
   readdir h (join h [dirname h out; "versions"]) = Fulfilled entries ->
   let versionsDir := join h [dirname h out; "versions"] in
   resolveWindowsCursorAgent h "agent" =
   Fulfilled (Some (mkResolved (join h [versionsDir; latest; "node.exe"])
                      [join h [versionsDir; latest; "index.js"]]))) /\
  head (versions ["2024.1.2-abc123"; "2024.10.1-def456"])
    = Some "2024.10.1-def456" /\
  head (versions ["2024.10.1-def456"; "2024.1.2-abc123"])
    = Some "2024.10.1-def456".
Proof.
  intros Hhead.
  assert (Hin : latest ∈ versions entries).
  { destruct (versions entries) as [|x l]; [discriminate |].
    injection Hhead as ->. apply list_elem_of_here. }
  split; [| split; [| split; [| split; vm_compute; reflexivity]]].
  - apply versions_elem_of in Hin as [Hin Hre]. split; [done |].
    split; [by apply version_re_spec |].
    intros e He Hv. apply (versions_head_greatest entries latest Hhead).
    apply versions_elem_of. split; [done | by apply version_re_spec].
  - intros Hp Hc Hr versionsDir.
    rewrite (resolve_wrapper_path h cmd Hp Hc), Hr. unfold from_listing.
    destruct (versions entries) as [|x l]; [discriminate |].
    by injection Hhead as ->.
  - intros chunks Hp Hw out Hout Hr versionsDir.
    rewrite (resolve_bare_name h chunks Hp Hw). fold out.
    rewrite Hout, Hr. unfold from_listing.
    destruct (versions entries) as [|x l]; [discriminate |].
    by injection Hhead as ->.
Qed.

Lemma latest_is_greatest_matching_entry_witness :
  resolveWindowsCursorAgent
    (Examples.windows (Fulfilled Examples.two_versions)) "C:\tools\agent.cmd"
  = Fulfilled
      (Some (mkResolved "C:\tools\versions\2024.10.1-def456\node.exe"
               ["C:\tools\versions\2024.10.1-def456\index.js"])).
Proof.
  destruct (latest_is_greatest_matching_entry
              (Examples.windows (Fulfilled Examples.two_versions))
              "C:\tools\agent.cmd" Examples.two_versions "2024.10.1-def456")
    as (_ & H & _).
  - vm_compute. reflexivity.
  - apply H; vm_compute; reflexivity.
Defined.

(** ** C4: what the resolution step swallows, and what it does not *)
Section ResolutionTotal.

(** On a machine whose [where] child reports, the function is fulfilled. *)
Lemma resolve_fulfilled (h : Host) (cmd : string) :
  exists r, resolveWindowsCursorAgent h cmd = Fulfilled r.
Proof.
  rewrite resolve_cases, where_promise_host. cbn [host well_behaved].
  destruct (negb (String.eqb (platform h) "win32")); [by eexists |].
  destruct (negb (endsWith cmd "agent.cmd") && negb (String.eqb cmd "agent"));
    [by eexists |].
  unfold from_listing.
  destruct (String.eqb cmd "agent").
  - destruct (where_agent h) as [chunks|e]; [| by eexists].
    cbn zeta. destruct (truthy _ && endsWith _ "agent.cmd"); [| by eexists].
    destruct (versions _); by eexists.
  - destruct (versions _); by eexists.
Qed.

Lemma resolve_invocation_unresolved (m : Machine) (cmd : string)
    (args : list string) :
  resolveWindowsCursorAgent m cmd = Fulfilled None ->
  resolve_invocation m cmd args
  = Fulfilled (unresolved_invocation (host m) cmd args).
Proof.
  intros H. unfold resolve_invocation, unresolved_invocation. rewrite H.
  cbn [await_fate await bind_progress async_progress].
  by destruct (String.eqb (platform (host m)) "win32"
               && (endsWith cmd ".cmd" || endsWith cmd ".bat"
                   || String.eqb cmd "agent")).
Qed.

Lemma resolve_invocation_resolved (m : Machine) (cmd : string)
    (args : list string) (r : ResolvedInvocation) :
  resolveWindowsCursorAgent m cmd = Fulfilled (Some r) ->
  resolve_invocation m cmd args =
  Fulfilled (mkInvocation (resolved_cmd r) (argsPrefix r ++ args)).
Proof.
  intros H. unfold resolve_invocation. rewrite H. reflexivity.
Qed.

Lemma resolve_invocation_fulfilled (h : Host) (cmd : string)
    (args : list string) :
  exists inv, resolve_invocation h cmd args = Fulfilled inv.
Proof.
  destruct (resolve_fulfilled h cmd) as [[r|] H].
  - rewrite (resolve_invocation_resolved h cmd args r H). by eexists.
  - rewrite (resolve_invocation_unresolved h cmd args H). by eexists.
Qed.

Lemma resolve_where_throws (h : Host) (e : error) :
  where_agent h = Rejected e ->
  resolveWindowsCursorAgent h "agent" = Fulfilled None.
Proof.
  intros H. rewrite resolve_cases, where_promise_host, H.
  by destruct (negb (String.eqb (platform (host h)) "win32")).
Qed.

Lemma resolve_where_unusable (h : Host) (chunks : list string) :
  where_agent h = Fulfilled chunks ->
  truthy (first_line (trim (concat_chunks chunks)))
    && endsWith (first_line (trim (concat_chunks chunks))) "agent.cmd" = false ->
  resolveWindowsCursorAgent h "agent" = Fulfilled None.
Proof.
  intros H Hout. rewrite resolve_cases, where_promise_host, H.
  destruct (negb (String.eqb (platform (host h)) "win32")); [done |].
  cbn zeta. by rewrite Hout.
Qed.

Lemma resolve_listing_fails (h : Host) (cmd : string) :
  (forall dir, exists e, readdir h dir = Rejected e) ->
  resolveWindowsCursorAgent h cmd = Fulfilled None.
Proof.
  intros Hfail. rewrite resolve_cases, where_promise_host.
  cbn [host well_behaved].
  destruct (negb (String.eqb (platform h) "win32")); [done |].
  destruct (negb (endsWith cmd "agent.cmd") && negb (String.eqb cmd "agent"));
    [done |].
  destruct (String.eqb cmd "agent").
  - destruct (where_agent h) as [chunks|e]; [| done]. cbn zeta.
    destruct (truthy _ && endsWith _ "agent.cmd"); [| done].
    by destruct (Hfail (join h [dirname h
           (first_line (trim (concat_chunks chunks))); "versions"])) as [e ->].
  - by destruct (Hfail (join h [dirname h cmd; "versions"])) as [e ->].
Qed.

End ResolutionTotal.

(** What the [try] block and the [catch] of [readdir] do swallow: a
    [spawn] of [where] that throws, an output of [where] that names no
    wrapper script, and a listing that fails all give [null], and [run]
    goes on to the unresolved invocation. *)
Lemma caught_failures_give_no_redirection
    (h : Host) (cmd : string) (args : list string) (opts : RunOptions)
    (evs : list Event) :
  (forall e, where_agent h = Rejected e ->
     resolveWindowsCursorAgent h "agent" = Fulfilled None) /\
  (forall chunks, where_agent h = Fulfilled chunks ->
     truthy (first_line (trim (concat_chunks chunks)))
       && endsWith (first_line (trim (concat_chunks chunks))) "agent.cmd"
       = false ->
     resolveWindowsCursorAgent h "agent" = Fulfilled None) /\
  ((forall dir, exists e, readdir h dir = Rejected e) ->
     resolveWindowsCursorAgent h cmd = Fulfilled None) /\
  (resolveWindowsCursorAgent h cmd = Fulfilled None ->
     run_state h cmd args opts evs =
     Fulfilled (deliver cmd (start opts (unresolved_invocation h cmd args)) evs)).
Proof.
  split; [apply resolve_where_throws |].
  split; [apply resolve_where_unusable |].
  split; [apply resolve_listing_fails |].
  intros H. unfold run_state.
  by rewrite (resolve_invocation_unresolved h cmd args H).
Qed.

Section WhereChildFails.

(** For the bare name on Windows the resolution step stands and falls
    with the [where] child. *)
Lemma resolve_bare_name_by_child (m : Machine) :
  platform (host m) = "win32" ->
  resolveWindowsCursorAgent m "agent" =
  match where_child m with
  | WhereReports => resolveWindowsCursorAgent (host m) "agent"
  | WhereFails err => Uncaught (Errno err)
  | WhereSilent => NeverSettles
  end.
Proof.
  intros Hp. rewrite !resolve_cases. unfold where_promise.
  cbn [host well_behaved where_child]. rewrite Hp.
  by destruct (where_child m).
Qed.

Lemma resolve_invocation_uncaught (m : Machine) (cmd : string)
    (args : list string) (e : error) :
  resolveWindowsCursorAgent m cmd = Uncaught e ->
  resolve_invocation m cmd args = Uncaught e.
Proof. intros H. unfold resolve_invocation. by rewrite H. Qed.

Lemma resolve_invocation_waits (m : Machine) (cmd : string)
    (args : list string) :
  resolveWindowsCursorAgent m cmd = NeverSettles ->
  resolve_invocation m cmd args = NeverSettles.
Proof. intros H. unfold resolve_invocation. by rewrite H. Qed.

(** An invocation that does not settle leaves [run] before line 76. *)
Lemma run_does_not_start (m : Machine) (cmd : string) (args : list string)
    (opts : RunOptions) :
  (forall o, resolve_invocation m cmd args <> Settles o) ->
  (forall child, run m cmd args opts child = Pending) /\
  (forall evs, spawned m cmd args opts evs = None) /\
  (forall evs, run_trace m cmd args opts evs = resolution_spawns m cmd).
Proof.
  intros H. split; [| split].
  - intros [e|evs]; unfold run, run_state;
      destruct (resolve_invocation m cmd args) as [o|e'|]; try done;
      by destruct (H o).
  - intros evs. unfold spawned, run_state.
    destruct (resolve_invocation m cmd args) as [o|e'|]; try done.
    by destruct (H o).
  - intros evs. unfold run_trace, run_state.
    destruct (resolve_invocation m cmd args) as [o|e'|];
      rewrite ?app_nil_r; try done.
    by destruct (H o).
Qed.

End WhereChildFails.

(** C4 does not hold of the bare name on Windows. The [where] child of
    lines 26-31 has a ['close'] listener and no ['error'] listener, and
    the promise that the function awaits can only be resolved. When
    [where] cannot be started the child emits ['error']: the exception is
    raised outside the [try] block, the function neither returns [null]
    nor throws into its [catch], and [run] spawns nothing but [where] and
    leaves its promise unsettled, whatever becomes of the agent. *)
Theorem where_error_is_not_swallowed
    (m : Machine) (args : list string) (opts : RunOptions)
    (err : ErrnoException) :
  platform (host m) = "win32" ->
  where_child m = WhereFails err ->
  resolveWindowsCursorAgent m "agent" = Uncaught (Errno err) /\
  (forall r, resolveWindowsCursorAgent m "agent" <> Fulfilled r) /\
  (forall child, run m "agent" args opts child = Pending) /\
  (forall evs, spawned m "agent" args opts evs = None) /\
  (forall evs,
     run_trace m "agent" args opts evs
     = [Spawn "where" ["agent"]
          (mkSpawnOptions None (Ignore, Pipe, Ignore) true)]).
Proof.
  intros Hp Hw.
  assert (Hr : resolveWindowsCursorAgent m "agent" = Uncaught (Errno err)).
  { by rewrite (resolve_bare_name_by_child m Hp), Hw. }
  split; [exact Hr |]. split; [by rewrite Hr |].
  destruct (run_does_not_start m "agent" args opts) as (Hrun & Hsp & Htr).
  { intros o. by rewrite (resolve_invocation_uncaught m "agent" args _ Hr). }
  split; [exact Hrun |]. split; [exact Hsp |].
  intros evs. rewrite Htr. unfold resolution_spawns. by rewrite Hp.
Qed.

Lemma where_error_is_not_swallowed_witness :
  resolveWindowsCursorAgent Examples.windows_without_where "agent"
    = Uncaught (Errno Examples.where_ENOENT) /\
  run Examples.windows_without_where "agent" [] Examples.no_options
    (Events [EvClose (Some 0%Z)]) = Pending.
Proof.
  destruct (where_error_is_not_swallowed
              Examples.windows_without_where [] Examples.no_options
              Examples.where_ENOENT eq_refl eq_refl)
    as (Hr & _ & Hrun & _).
  split; [exact Hr | apply Hrun].
Defined.

(** ** The life of the child: effects only accumulate *)
Section Lifecycle.

Lemma handle_effects (cmd : string) (st : RunState) (ev : Event) :
  exists l, effects (handle cmd st ev) = effects st ++ l.
Proof.
  destruct ev as [c|c|err|code|]; simpl.
  - exists []. by rewrite app_nil_r.
  - exists []. by rewrite app_nil_r.
  - unfold clear_timeout.
    destruct (timeout st), (bool_decide _); simpl;
      rewrite <- ?app_assoc; by eexists.
  - unfold clear_timeout.
    destruct (timeout st); simpl; rewrite <- ?app_assoc; by eexists.
  - destruct (timeout st); simpl;
      try (exists []; by rewrite app_nil_r); by eexists.
Qed.

Lemma deliver_effects (cmd : string) (evs : list Event) (st : RunState) :
  exists l, effects (deliver cmd st evs) = effects st ++ l.
Proof.
  revert st. induction evs as [|ev evs IH]; intros st; simpl.
  - exists []. by rewrite app_nil_r.
  - destruct (IH (handle cmd st ev)) as [l2 ->].
    destruct (handle_effects cmd st ev) as [l1 ->].
    exists (l1 ++ l2). by rewrite app_assoc.
Qed.

Lemma deliver_app (cmd : string) (st : RunState) (evs1 evs2 : list Event) :
  deliver cmd st (evs1 ++ evs2) = deliver cmd (deliver cmd st evs1) evs2.
Proof. apply fold_left_app. Qed.

Lemma spawned_spec (m : Machine) (cmd : string) (args : list string)
    (opts : RunOptions) (evs : list Event) (inv : Invocation) :
  resolve_invocation m cmd args = Fulfilled inv ->
  spawned m cmd args opts evs = Some (actualCmd inv, actualArgs inv).
Proof.
  intros H. unfold spawned, run_state. rewrite H.
  destruct (deliver_effects cmd evs (start opts inv)) as [l ->].
  reflexivity.
Qed.

End Lifecycle.

(** ** C5: which program is spawned *)
Section Invocation.

(** A redirection always names [node.exe] and [index.js] of one version
    directory, and only Windows hosts get one. *)
Lemma resolved_shape (m : Machine) (cmd : string) (r : ResolvedInvocation) :
  resolveWindowsCursorAgent m cmd = Fulfilled (Some r) ->
  platform (host m) = "win32" /\
  exists versionsDir latest,
    r = mkResolved (join (host m) [versionsDir; latest; "node.exe"])
          [join (host m) [versionsDir; latest; "index.js"]].
Proof.
  rewrite resolve_cases. unfold from_listing.
  destruct (String.eqb_spec (platform (host m)) "win32") as [Hp|Hp];
    cbn [negb]; [| discriminate].
  destruct (negb (endsWith cmd "agent.cmd") && negb (String.eqb cmd "agent"));
    [discriminate |].
  intros H. split; [done |].
  destruct (String.eqb cmd "agent").
  - destruct (where_promise m) as [[chunks|e]|e|]; try discriminate.
    cbn zeta in H.
    destruct (truthy _ && endsWith _ "agent.cmd"); [| discriminate].
    destruct (versions _) as [|latest rest]; [discriminate |].
    injection H as <-. by eexists _, _.
  - destruct (versions _) as [|latest rest]; [discriminate |].
    injection H as <-. by eexists _, _.
Qed.

Lemma resolve_not_windows (m : Machine) (cmd : string) :
  platform (host m) <> "win32" ->
  resolveWindowsCursorAgent m cmd = Fulfilled None.
Proof.
  intros Hp. rewrite resolve_cases.
  by destruct (String.eqb_spec (platform (host m)) "win32").
Qed.

End Invocation.

(** C5. The program that [run] spawns: after a successful resolution the
    command of the resolved invocation, with its argument prefix put
    before the caller's arguments, which keep their order, and these are
    the bundled [node.exe] and the bundled [index.js] of one version
    directory; otherwise, on Windows and for a command that ends in
    [.cmd] or [.bat] or is the bare name [agent], the interpreter named by
    [COMSPEC] (or [cmd.exe] when the variable is unset, and likewise when
    it is empty) with [/d /s /c], the command and the arguments; in every
    other case the command and the arguments as they were given. *)
Theorem spawned_invocation
    (m : Machine) (cmd : string) (args : list string) (opts : RunOptions)
    (evs : list Event) :
  (forall r, resolveWindowsCursorAgent m cmd = Fulfilled (Some r) ->
     spawned m cmd args opts evs
       = Some (resolved_cmd r, argsPrefix r ++ args) /\
     exists versionsDir latest,
       resolved_cmd r = join (host m) [versionsDir; latest; "node.exe"] /\
       argsPrefix r = [join (host m) [versionsDir; latest; "index.js"]]) /\
  (resolveWindowsCursorAgent m cmd = Fulfilled None ->
   platform (host m) = "win32" ->
   endsWith cmd ".cmd" = true \/ endsWith cmd ".bat" = true \/ cmd = "agent" ->
     exists interpreter,
       spawned m cmd args opts evs =
       Some (interpreter, "/d" :: "/s" :: "/c" :: cmd :: args) /\
       (forall v, env (host m) !! "COMSPEC" = Some v -> v <> "" ->
          interpreter = v) /\
       (env (host m) !! "COMSPEC" = None -> interpreter = "cmd.exe") /\
       (env (host m) !! "COMSPEC" = Some "" -> interpreter = "cmd.exe")) /\
  (platform (host m) <> "win32" ->
     spawned m cmd args opts evs = Some (cmd, args)) /\
  (resolveWindowsCursorAgent m cmd = Fulfilled None ->
   endsWith cmd ".cmd" = false -> endsWith cmd ".bat" = false ->
   cmd <> "agent" ->
     spawned m cmd args opts evs = Some (cmd, args)).
Proof.
  split; [| split; [| split]].
  - intros r Hr.
    rewrite (spawned_spec m cmd args opts evs _
               (resolve_invocation_resolved m cmd args _ Hr)).
    split; [reflexivity |].
    destruct (resolved_shape m cmd r Hr) as (_ & versionsDir & latest & ->).
    by exists versionsDir, latest.
  - intros Hr Hp Hc.
    exists (or_else (env (host m) !! "COMSPEC") "cmd.exe").
    rewrite (spawned_spec m cmd args opts evs _
               (resolve_invocation_unresolved m cmd args Hr)).
    unfold unresolved_invocation. rewrite Hp.
    assert (Hsuffix : endsWith cmd ".cmd" || endsWith cmd ".bat"
                      || String.eqb cmd "agent" = true).
    { destruct Hc as [-> | [-> | ->]]; [done | by rewrite orb_true_r | ].
      by rewrite String.eqb_refl, orb_true_r. }
    rewrite Hsuffix. split; [done |].
    split; [| split].
    + intros v -> Hv. unfold or_else, truthy.
      by destruct (String.eqb_spec v "").
    + by intros ->.
    + by intros ->.
  - intros Hp.
    rewrite (spawned_spec m cmd args opts evs _
               (resolve_invocation_unresolved m cmd args
                  (resolve_not_windows m cmd Hp))).
    unfold unresolved_invocation.
    by destruct (String.eqb_spec (platform (host m)) "win32").
  - intros Hr H1 H2 Hc.
    rewrite (spawned_spec m cmd args opts evs _
               (resolve_invocation_unresolved m cmd args Hr)).
    unfold unresolved_invocation. rewrite H1, H2.
    destruct (String.eqb_spec cmd "agent"); [done |].
    by rewrite andb_false_r.
Qed.

Lemma spawned_invocation_witness :
  spawned (Examples.windows (Fulfilled Examples.two_versions)) "agent"
    ["chat"] Examples.no_options [EvClose (Some 0%Z)]
  = Some ("C:\tools\versions\2024.10.1-def456\node.exe",
          ["C:\tools\versions\2024.10.1-def456\index.js"; "chat"]) /\
  spawned (Examples.windows (Rejected Examples.EACCES)) "run.bat" ["--help"]
    Examples.no_options [EvClose (Some 0%Z)]
  = Some ("C:\Windows\system32\cmd.exe", ["/d"; "/s"; "/c"; "run.bat"; "--help"]).
Proof.
  split.
  - destruct (spawned_invocation
                (Examples.windows (Fulfilled Examples.two_versions)) "agent"
                ["chat"] Examples.no_options [EvClose (Some 0%Z)])
      as (H & _).
    destruct (H (mkResolved "C:\tools\versions\2024.10.1-def456\node.exe"
                   ["C:\tools\versions\2024.10.1-def456\index.js"]))
      as (-> & _); [vm_compute |]; reflexivity.
  - destruct (spawned_invocation
                (Examples.windows (Rejected Examples.EACCES)) "run.bat"
                ["--help"] Examples.no_options [EvClose (Some 0%Z)])
      as (_ & H & _).
    destruct H as (interpreter & -> & Hset & _).
    + vm_compute. reflexivity.
    + reflexivity.
    + right. left. vm_compute. reflexivity.
    + rewrite (Hset "C:\Windows\system32\cmd.exe");
        [reflexivity | | discriminate].
      vm_compute. reflexivity.
Defined.

(** ** Accumulation of output and settling of the promise *)
Section Settling.

Lemma fold_left_app_string (l : list string) (acc : string) :
  fold_left String.append l acc = acc +:+ concat_chunks l.
Proof.
  unfold concat_chunks. revert acc.
  induction l as [|c l IH]; intros acc; simpl.
  - by rewrite string_app_nil_r.
  - rewrite (IH (acc +:+ c)), (IH ("" +:+ c)).
    by rewrite string_app_nil_l, string_app_assoc.
Qed.

(** [concat_chunks] is the concatenation of the chunks in their order. *)
Lemma concat_chunks_cons (c : string) (l : list string) :
  concat_chunks (c :: l) = c +:+ concat_chunks l.
Proof.
  unfold concat_chunks at 1. simpl.
  by rewrite fold_left_app_string, string_app_nil_l.
Qed.

Lemma concat_chunks_snoc (l : list string) (c : string) :
  concat_chunks (l ++ [c]) = concat_chunks l +:+ c.
Proof. unfold concat_chunks. by rewrite fold_left_app. Qed.

(** Events that do not settle leave the promise alone and append their
    chunk to the buffer of their stream. *)
Lemma deliver_quiet (cmd : string) (pre : list Event) (st : RunState) :
  Forall quiet pre ->
  promise (deliver cmd st pre) = promise st /\
  stdout_acc (deliver cmd st pre)
    = stdout_acc st +:+ concat_chunks (stdout_chunks pre) /\
  stderr_acc (deliver cmd st pre)
    = stderr_acc st +:+ concat_chunks (stderr_chunks pre).
Proof.
  intros Hq. revert st.
  induction Hq as [|ev pre Hev _ IH]; intros st.
  - simpl. by rewrite !string_app_nil_r.
  - simpl. destruct (IH (handle cmd st ev)) as (-> & -> & ->).
    destruct ev as [c|c|err|code|]; try discriminate Hev; simpl.
    + by rewrite concat_chunks_cons, string_app_assoc.
    + by rewrite concat_chunks_cons, string_app_assoc.
    + by destruct (timeout st).
Qed.

Lemma clear_timeout_keeps (st : RunState) :
  promise (clear_timeout st) = promise st /\
  stdout_acc (clear_timeout st) = stdout_acc st /\
  stderr_acc (clear_timeout st) = stderr_acc st.
Proof. unfold clear_timeout. by destruct (timeout st). Qed.

(** The buffers hold the chunks of their stream, whatever else arrives
    in between. *)
Lemma deliver_buffers (cmd : string) (evs : list Event) (st : RunState) :
  stdout_acc (deliver cmd st evs)
    = stdout_acc st +:+ concat_chunks (stdout_chunks evs) /\
  stderr_acc (deliver cmd st evs)
    = stderr_acc st +:+ concat_chunks (stderr_chunks evs).
Proof.
  revert st. induction evs as [|ev evs IH]; intros st.
  - simpl. by rewrite !string_app_nil_r.
  - simpl. destruct (IH (handle cmd st ev)) as (-> & ->).
    destruct (clear_timeout_keeps st) as (_ & Ho & He).
    destruct ev as [c|c|err|code|]; simpl.
    + by rewrite concat_chunks_cons, string_app_assoc.
    + by rewrite concat_chunks_cons, string_app_assoc.
    + destruct (bool_decide _); simpl; by rewrite Ho, He.
    + by rewrite Ho, He.
    + by destruct (timeout st).
Qed.

(** The last thing the ['close'] listener does is to call [resolve] with
    the code and the two buffers. *)
Lemma close_listener_resolves (cmd : string) (st : RunState) (c : option Z) :
  last (effects (handle cmd st (EvClose c)))
  = Some (Resolve (mkRunResult (nullish c 0%Z) (stdout_acc st) (stderr_acc st))).
Proof.
  destruct (clear_timeout_keeps st) as (_ & Ho & He).
  simpl. rewrite Ho, He. apply last_snoc.
Qed.

(** The last thing the ['error'] listener does is to call [reject]. *)
Lemma error_listener_rejects (cmd : string) (st : RunState)
    (err : ErrnoException) :
  last (effects (handle cmd st (EvError err)))
  = Some (Reject (if bool_decide (errno_code err = Some "ENOENT")
                  then NewError (not_found_message cmd)
                  else Errno err)).
Proof. simpl. destruct (bool_decide _); apply last_snoc. Qed.

Lemma run_state_snoc (h : Host) (cmd : string) (args : list string)
    (opts : RunOptions) (pre : list Event) (ev : Event) :
  exists inv,
    run_state h cmd args opts (pre ++ [ev])
    = Fulfilled (handle cmd (deliver cmd (start opts inv) pre) ev).
Proof.
  unfold run_state.
  destruct (resolve_invocation_fulfilled h cmd args) as [inv ->].
  exists inv. by rewrite deliver_app.
Qed.

(** A settled promise stays as it is. *)
Lemma handle_settled (cmd : string) (st : RunState) (ev : Event)
    (o : outcome RunResult) :
  promise st = Settled o -> promise (handle cmd st ev) = Settled o.
Proof.
  intros H. destruct ev as [c|c|err|code|]; simpl; try done.
  - destruct (clear_timeout_keeps st) as (Hp & _).
    destruct (bool_decide _); simpl; by rewrite Hp, H.
  - destruct (clear_timeout_keeps st) as (Hp & _). by rewrite Hp, H.
  - by destruct (timeout st).
Qed.

Lemma deliver_settled (cmd : string) (evs : list Event) (st : RunState)
    (o : outcome RunResult) :
  promise st = Settled o -> promise (deliver cmd st evs) = Settled o.
Proof.
  revert st. induction evs as [|ev evs IH]; intros st H; simpl; [done |].
  apply IH. by apply handle_settled.
Qed.

(** Once a listener has settled the promise, what follows does not
    change it. *)
Lemma settled_for_good (cmd : string) (st : RunState)
    (pre post : list Event) (ev : Event) (o : outcome RunResult) :
  promise (handle cmd (deliver cmd st pre) ev) = Settled o ->
  promise (deliver cmd st (pre ++ ev :: post)) = Settled o.
Proof.
  intros H. rewrite deliver_app. simpl. by apply deliver_settled.
Qed.


Lemma run_events (h : Host) (cmd : string) (args : list string)
    (opts : RunOptions) (evs : list Event) :
  exists inv,
    resolve_invocation h cmd args = Fulfilled inv /\
    run h cmd args opts (Events evs) = promise (deliver cmd (start opts inv) evs).
Proof.
  destruct (resolve_invocation_fulfilled h cmd args) as [inv H].
  exists inv. split; [done |]. unfold run, run_state. by rewrite H.
Qed.

(** The promise after a ['close'] that finds it pending. *)
Lemma close_resolves (h : Host) (cmd : string) (args : list string)
    (opts : RunOptions) (pre post : list Event) (c : option Z) :
  Forall quiet pre ->
  run h cmd args opts (Events (pre ++ EvClose c :: post)) =
  Settled (Fulfilled (mkRunResult (nullish c 0%Z)
                        (concat_chunks (stdout_chunks pre))
                        (concat_chunks (stderr_chunks pre)))).
Proof.
  intros Hq.
  destruct (run_events h cmd args opts (pre ++ EvClose c :: post))
    as (inv & _ & ->).
  destruct (deliver_quiet cmd pre (start opts inv) Hq) as (Hp & Hout & Herr).
  destruct (clear_timeout_keeps (deliver cmd (start opts inv) pre))
    as (Hcp & Hco & Hce).
  apply settled_for_good.
  simpl. rewrite Hcp, Hp, Hco, Hce, Hout, Herr. simpl.
  by rewrite !string_app_nil_l.
Qed.

End Settling.

(** ** C1: the result when the child closes *)

(** C1, as the code has it. Whatever the child has emitted before, when
    it emits ['close'] with code [c] the listener calls [resolve] with a
    result whose code is [c], or 0 when [c] is [null], and whose [stdout]
    and [stderr] are the chunks of the respective stream concatenated in
    the order of arrival. When no ['error'] or ['close'] came before, that
    result is what the promise of [run] is resolved with, and later events
    do not change it. *)
Theorem close_resolves_with_code_and_output
    (h : Host) (cmd : string) (args : list string) (opts : RunOptions)
    (pre post : list Event) (c : option Z) :
  exists r st,
    code r = match c with Some n => n | None => 0%Z end /\
    stdout r = concat_chunks (stdout_chunks pre) /\
    stderr r = concat_chunks (stderr_chunks pre) /\
    run_state h cmd args opts (pre ++ [EvClose c]) = Fulfilled st /\
    last (effects st) = Some (Resolve r) /\
    (Forall quiet pre ->
     run h cmd args opts (Events (pre ++ EvClose c :: post))
       = Settled (Fulfilled r)).
Proof.
  destruct (run_state_snoc h cmd args opts pre (EvClose c)) as [inv Hst].
  destruct (deliver_buffers cmd pre (start opts inv)) as (Hout & Herr).
  simpl in Hout, Herr. rewrite string_app_nil_l in Hout, Herr.
  exists (mkRunResult (nullish c 0%Z) (concat_chunks (stdout_chunks pre))
            (concat_chunks (stderr_chunks pre))),
    (handle cmd (deliver cmd (start opts inv) pre) (EvClose c)).
  split; [by destruct c |].
  split; [reflexivity |]. split; [reflexivity |]. split; [exact Hst |].
  split.
  - by rewrite close_listener_resolves, Hout, Herr.
  - apply close_resolves.
Qed.

Lemma close_resolves_with_code_and_output_witness :
  run Examples.linux "agent" ["--version"] Examples.no_options
    (Events [EvStdout "2024."; EvStderr "warn"; EvStdout "10.1"; EvClose None])
  = Settled (Fulfilled (mkRunResult 0 "2024.10.1" "warn")).
Proof.
  destruct (close_resolves_with_code_and_output
              Examples.linux "agent" ["--version"] Examples.no_options
              [EvStdout "2024."; EvStderr "warn"; EvStdout "10.1"] [] None)
    as (r & st & Hcode & Hout & Herr & _ & _ & Hrun).
  cbn [app] in Hrun. rewrite Hrun by repeat constructor.
  destruct r as [k o e]. simpl in Hcode, Hout, Herr.
  rewrite Hcode, Hout, Herr. reflexivity.
Defined.

(** C1 as stated fails: a child that cannot be started emits ['error'] and
    then ['close'], here with the code -2 of [ENOENT]; the promise is
    rejected by the first, and the second does not resolve it with a
    result. *)
Lemma close_after_error_is_no_result :
  let outcome_of_run :=
    run Examples.linux "agent" [] Examples.no_options
      (Events [EvError Examples.ENOENT; EvClose (Some (-2)%Z)]) in
  outcome_of_run
    = Settled (Rejected (NewError (not_found_message "agent"))) /\
  ~ (exists r, outcome_of_run = Settled (Fulfilled r) /\ code r = (-2)%Z).
Proof.
  cbv zeta. split; [vm_compute; reflexivity |].
  intros (r & H & _). vm_compute in H. discriminate H.
Qed.

(** ** C2 and C9: the result when the child reports an error *)
Section Errors.

Lemma prefix_app (s t : string) : String.prefix s (s +:+ t) = true.
Proof.
  induction s as [|c s IH]; [by destruct t |].
  rewrite string_app_cons. simpl.
  destruct (ascii_dec c c); [exact IH | congruence].
Qed.

Lemma includes_prefix (sub s : string) :
  String.prefix sub s = true -> includes sub s = true.
Proof. intros H. destruct s; cbn [includes]; by rewrite H. Qed.

Lemma includes_app (sub before after : string) :
  includes sub (before +:+ sub +:+ after) = true.
Proof.
  induction before as [|c before IH].
  - rewrite string_app_nil_l. apply includes_prefix, prefix_app.
  - rewrite string_app_cons. cbn [includes]. rewrite IH. apply orb_true_r.
Qed.

Lemma not_found_message_includes_cmd (cmd : string) :
  includes cmd (not_found_message cmd) = true.
Proof. unfold not_found_message. apply includes_app. Qed.

Lemma not_found_message_includes_variable (cmd : string) :
  includes "CURSOR_AGENT_BIN" (not_found_message cmd) = true.
Proof.
  replace (not_found_message cmd)
    with (("Command not found: " +:+ cmd
             +:+ ". Install Cursor CLI (agent) or set ")
            +:+ "CURSOR_AGENT_BIN" +:+ " to its path.").
  - apply includes_app.
  - unfold not_found_message. by rewrite !string_app_assoc.
Qed.

(** The state after an ['error'] event that finds the promise pending. *)
Lemma error_rejects (h : Host) (cmd : string) (args : list string)
    (opts : RunOptions) (pre post : list Event) (err : ErrnoException) :
  Forall quiet pre ->
  run h cmd args opts (Events (pre ++ EvError err :: post)) =
  Settled (Rejected (if bool_decide (errno_code err = Some "ENOENT")
                     then NewError (not_found_message cmd)
                     else Errno err)).
Proof.
  intros Hq.
  destruct (run_events h cmd args opts (pre ++ EvError err :: post))
    as (inv & _ & ->).
  destruct (deliver_quiet cmd pre (start opts inv) Hq) as (Hp & _).
  destruct (clear_timeout_keeps (deliver cmd (start opts inv) pre))
    as (Hcp & _).
  apply settled_for_good.
  simpl. destruct (bool_decide _); simpl; by rewrite Hcp, Hp.
Qed.

End Errors.

(** C2, as the code has it. When the child reports an error with code
    [ENOENT], the listener rejects with a new error whose message is
    "Command not found: <cmd>. Install Cursor CLI (agent) or set
    CURSOR_AGENT_BIN to its path.": it contains the requested command as
    it was given and names the environment variable [CURSOR_AGENT_BIN].
    When no ['error'] or ['close'] came before, the promise of [run] is
    rejected with that error and is not resolved with a result, whatever
    follows. *)
Theorem not_found_rejects_with_hint
    (h : Host) (cmd : string) (args : list string) (opts : RunOptions)
    (pre post : list Event) (err : ErrnoException) :
  errno_code err = Some "ENOENT" ->
  exists message st,
    message = "Command not found: " +:+ cmd
      +:+ ". Install Cursor CLI (agent) or set CURSOR_AGENT_BIN to its path." /\
    includes cmd message = true /\
    includes "CURSOR_AGENT_BIN" message = true /\
    run_state h cmd args opts (pre ++ [EvError err]) = Fulfilled st /\
    last (effects st) = Some (Reject (NewError message)) /\
    (Forall quiet pre ->
     run h cmd args opts (Events (pre ++ EvError err :: post))
       = Settled (Rejected (NewError message)) /\
     forall r, run h cmd args opts (Events (pre ++ EvError err :: post))
               <> Settled (Fulfilled r)).
Proof.
  intros Hcode.
  destruct (run_state_snoc h cmd args opts pre (EvError err)) as [inv Hst].
  exists (not_found_message cmd),
    (handle cmd (deliver cmd (start opts inv) pre) (EvError err)).
  split; [done |].
  split; [apply not_found_message_includes_cmd |].
  split; [apply not_found_message_includes_variable |].
  split; [exact Hst |]. split.
  - rewrite error_listener_rejects. by rewrite bool_decide_eq_true_2.
  - intros Hq. rewrite (error_rejects h cmd args opts pre post err Hq).
    by rewrite bool_decide_eq_true_2.
Qed.

Lemma not_found_rejects_with_hint_witness :
  run Examples.linux "cursor-agent" [] Examples.no_options
    (Events [EvError Examples.ENOENT; EvClose (Some (-2))%Z])
  = Settled (Rejected (NewError
      "Command not found: cursor-agent. Install Cursor CLI (agent) or set CURSOR_AGENT_BIN to its path.")).
Proof.
  destruct (not_found_rejects_with_hint
              Examples.linux "cursor-agent" [] Examples.no_options
              [] [EvClose (Some (-2))%Z] Examples.ENOENT)
    as (message & st & -> & _ & _ & _ & _ & Hrun).
  - reflexivity.
  - apply Hrun. constructor.
Defined.

(** C2 as stated fails: for the command [agent] the message of the
    rejection names one environment variable, [CURSOR_AGENT_BIN], and not
    two. *)
Lemma not_found_message_names_one_variable :
  run Examples.linux "agent" [] Examples.no_options
    (Events [EvError Examples.ENOENT])
  = Settled (Rejected (NewError
      "Command not found: agent. Install Cursor CLI (agent) or set CURSOR_AGENT_BIN to its path.")) /\
  Plugin.named_variables
    "Command not found: agent. Install Cursor CLI (agent) or set CURSOR_AGENT_BIN to its path."
  = ["CURSOR_AGENT_BIN"] /\
  ~ (exists message,
       run Examples.linux "agent" [] Examples.no_options
         (Events [EvError Examples.ENOENT])
         = Settled (Rejected (NewError message)) /\
       includes "agent" message = true /\
       2 <= length (Plugin.named_variables message)).
Proof.
  split; [vm_compute; reflexivity |]. split; [vm_compute; reflexivity |].
  intros (message & Hrun & _ & Hnames).
  vm_compute in Hrun. injection Hrun as <-.
  vm_compute in Hnames. lia.
Qed.

(** C9. When the child reports an error whose code is not [ENOENT], the
    listener rejects with that very error object, neither wrapped nor
    changed. When no ['error'] or ['close'] came before, this is what the
    promise of [run] is rejected with, whatever follows; an error thrown
    by [spawn] itself rejects the promise in the same way. *)
Theorem other_start_errors_pass_unchanged
    (h : Host) (cmd : string) (args : list string) (opts : RunOptions)
    (pre post : list Event) (err : ErrnoException) :
  errno_code err <> Some "ENOENT" ->
  exists st,
    run_state h cmd args opts (pre ++ [EvError err]) = Fulfilled st /\
    last (effects st) = Some (Reject (Errno err)) /\
    (Forall quiet pre ->
     run h cmd args opts (Events (pre ++ EvError err :: post))
       = Settled (Rejected (Errno err))) /\
    run h cmd args opts (SpawnThrows (Errno err))
      = Settled (Rejected (Errno err)).
Proof.
  intros Hcode.
  destruct (run_state_snoc h cmd args opts pre (EvError err)) as [inv Hst].
  exists (handle cmd (deliver cmd (start opts inv) pre) (EvError err)).
  split; [exact Hst |]. split; [| split].
  - rewrite error_listener_rejects. by rewrite bool_decide_eq_false_2.
  - intros Hq. rewrite (error_rejects h cmd args opts pre post err Hq).
    by rewrite bool_decide_eq_false_2.
  - unfold run.
    by destruct (resolve_invocation_fulfilled h cmd args) as [inv' ->].
Qed.

Lemma other_start_errors_pass_unchanged_witness :
  run Examples.linux "agent" [] Examples.no_options
    (Events [EvError Examples.EPERM])
  = Settled (Rejected (Errno Examples.EPERM)).
Proof.
  destruct (other_start_errors_pass_unchanged
              Examples.linux "agent" [] Examples.no_options [] []
              Examples.EPERM)
    as (st & _ & _ & Hrun & _).
  - discriminate.
  - apply Hrun. constructor.
Defined.

(** ** C6 and C7: the timer *)
Section Timer.

Lemma gt_zero_finite (q : Q) : gt_zero (Finite q) = true <-> (0 < q)%Q.
Proof.
  unfold gt_zero, Qlt. simpl. rewrite Z.ltb_lt. lia.
Qed.

Lemma arm_timeout_spec (opts : RunOptions) (ms : number) :
  arm_timeout opts = Armed ms <->
  timeoutMs opts = Some ms /\ gt_zero ms = true.
Proof.
  unfold arm_timeout. destruct (timeoutMs opts) as [n|].
  - destruct (gt_zero n) eqn:Hn; split.
    + by intros [= ->].
    + by intros [[= ->] _].
    + discriminate.
    + intros [[= ->] H]. congruence.
  - split; [discriminate | intros [? _]; discriminate].
Qed.

(** Chunks touch neither the timer nor the effects. *)
Lemma deliver_chunks (cmd : string) (pre : list Event) (st : RunState) :
  Forall (fun ev => is_chunk ev = true) pre ->
  timeout (deliver cmd st pre) = timeout st /\
  effects (deliver cmd st pre) = effects st.
Proof.
  intros Hc. revert st. induction Hc as [|ev pre Hev _ IH]; intros st; [done |].
  simpl. destruct (IH (handle cmd st ev)) as [-> ->].
  by destruct ev.
Qed.

(** Once the timer is not pending it never becomes pending again, and no
    kill is sent from then on. *)
Lemma handle_unarmed (cmd : string) (st : RunState) (ev : Event) :
  armed (timeout st) = false ->
  armed (timeout (handle cmd st ev)) = false /\
  exists l, effects (handle cmd st ev) = effects st ++ l /\
            Forall (fun e => is_kill e = false) l.
Proof.
  intros Ha. destruct ev as [c|c|err|code|]; simpl.
  - split; [done |]. exists []. by rewrite app_nil_r.
  - split; [done |]. exists []. by rewrite app_nil_r.
  - unfold clear_timeout.
    destruct (timeout st) eqn:Ht, (bool_decide _); try discriminate Ha;
      simpl; rewrite ?Ht; (split; [done |]); rewrite <- ?app_assoc;
      eexists; (split; [reflexivity |]); by repeat constructor.
  - unfold clear_timeout.
    destruct (timeout st) eqn:Ht; try discriminate Ha;
      simpl; rewrite ?Ht; (split; [done |]); rewrite <- ?app_assoc;
      eexists; (split; [reflexivity |]); by repeat constructor.
  - destruct (timeout st) eqn:Ht; try discriminate Ha; rewrite Ht;
      (split; [done |]); exists []; by rewrite app_nil_r.
Qed.

Lemma deliver_unarmed (cmd : string) (evs : list Event) (st : RunState) :
  armed (timeout st) = false ->
  armed (timeout (deliver cmd st evs)) = false /\
  exists l, effects (deliver cmd st evs) = effects st ++ l /\
            Forall (fun e => is_kill e = false) l.
Proof.
  revert st. induction evs as [|ev evs IH]; intros st Ha; simpl.
  - split; [done |]. exists []. by rewrite app_nil_r.
  - destruct (handle_unarmed cmd st ev Ha) as (Ha1 & l1 & E1 & F1).
    destruct (IH _ Ha1) as (Ha2 & l2 & E2 & F2).
    split; [done |]. exists (l1 ++ l2).
    split; [by rewrite E2, E1, app_assoc | by apply Forall_app].
Qed.

(** What the listeners of ['error'] and ['close'] do to the timer, the
    effects and the promise. *)
Lemma handle_settling (cmd : string) (st : RunState) (ev : Event) :
  settles ev = true ->
  exists s,
    is_settle s = true /\
    effects (handle cmd st ev)
      = effects st ++ (if has_timer (timeout st) then [ClearTimeout; s] else [s]) /\
    timeout (handle cmd st ev)
      = (if armed (timeout st) then Cleared else timeout st) /\
    promise (handle cmd st ev) <> Pending.
Proof.
  intros Hs. destruct ev as [c|c|err|code|]; try discriminate Hs; simpl.
  - unfold clear_timeout.
    destruct (bool_decide _), (timeout st) eqn:Ht, (promise st) eqn:Hp;
      simpl; rewrite ?Ht, ?Hp, <- ?app_assoc; eexists;
      (split; [| split; [reflexivity | done]]); reflexivity.
  - unfold clear_timeout.
    destruct (timeout st) eqn:Ht, (promise st) eqn:Hp;
      simpl; rewrite ?Ht, ?Hp, <- ?app_assoc; eexists;
      (split; [| split; [reflexivity | done]]); reflexivity.
Qed.

End Timer.

(** C6. A timer is armed at launch exactly when [timeoutMs] is a number
    greater than zero (for a finite number: greater than zero as a
    rational; an absent, zero, negative or NaN timeout arms nothing). When
    the armed timer expires while only chunks have arrived, the child is
    sent [SIGKILL]; when no timer was armed, no kill is ever sent. *)
Theorem timeout_armed_iff_positive
    (cmd : string) (opts : RunOptions) (inv : Invocation) :
  (forall ms, timeout (start opts inv) = Armed ms <->
              timeoutMs opts = Some ms /\ gt_zero ms = true) /\
  (forall ms, SetTimeout ms ∈ effects (start opts inv) <->
              timeoutMs opts = Some ms /\ gt_zero ms = true) /\
  (forall q, gt_zero (Finite q) = true <-> (0 < q)%Q) /\
  (forall ms pre,
      timeoutMs opts = Some ms -> gt_zero ms = true ->
      Forall (fun ev => is_chunk ev = true) pre ->
      effects (handle cmd (deliver cmd (start opts inv) pre) EvTimeout)
        = effects (deliver cmd (start opts inv) pre) ++ [Kill "SIGKILL"]) /\
  ((forall ms, timeoutMs opts = Some ms -> gt_zero ms = false) ->
   forall evs,
     Forall (fun e => is_kill e = false)
       (effects (deliver cmd (start opts inv) evs))).
Proof.
  split; [intros ms; apply arm_timeout_spec |].
  split; [| split; [apply gt_zero_finite | split]].
  - intros ms. rewrite <- arm_timeout_spec. unfold start, feed_stdin. simpl.
    rewrite elem_of_cons, elem_of_app. split.
    + intros [H | [H | H]]; [discriminate | |].
      * destruct (stdin opts) as [text|]; [| by apply elem_of_nil in H].
        destruct (truthy text && has_stdin (stdin_mode opts));
          [| by apply elem_of_nil in H].
        apply elem_of_cons in H as [H|H]; [discriminate |].
        apply list_elem_of_singleton in H. discriminate.
      * destruct (arm_timeout opts); try by apply elem_of_nil in H.
        apply list_elem_of_singleton in H. by injection H as ->.
    + intros ->. right. right. by apply list_elem_of_singleton.
  - intros ms pre Hms Hpos Hpre.
    destruct (deliver_chunks cmd pre (start opts inv) Hpre) as [Ht He].
    simpl. rewrite Ht. simpl.
    by rewrite (proj2 (arm_timeout_spec opts ms) (conj Hms Hpos)).
  - intros Hoff evs.
    assert (Hno : arm_timeout opts = NoTimer).
    { unfold arm_timeout. destruct (timeoutMs opts) as [n|]; [| done].
      by rewrite (Hoff n). }
    destruct (deliver_unarmed cmd evs (start opts inv)) as (_ & l & -> & Hl).
    { simpl. by rewrite Hno. }
    apply Forall_app. split; [| done].
    simpl. rewrite Hno. unfold feed_stdin.
    destruct (stdin opts) as [text|]; [| by repeat constructor].
    destruct (truthy text && has_stdin (stdin_mode opts));
      by repeat constructor.
Qed.

Lemma timeout_armed_iff_positive_witness :
  effects
    (handle "agent"
       (deliver "agent"
          (start (mkRunOptions None (Some (Finite 5000)) None)
             (mkInvocation "agent" []))
          [EvStdout "partial"])
       EvTimeout)
  = [Spawn "agent" [] (mkSpawnOptions None (Ignore, Pipe, Pipe) true);
     SetTimeout (Finite 5000); Kill "SIGKILL"].
Proof.
  destruct (timeout_armed_iff_positive "agent"
              (mkRunOptions None (Some (Finite 5000)) None)
              (mkInvocation "agent" []))
    as (_ & _ & _ & Hkill & _).
  rewrite (Hkill (Finite 5000) [EvStdout "partial"]).
  - reflexivity.
  - reflexivity.
  - reflexivity.
  - repeat constructor.
Defined.

(** C7. Whenever a listener settles the promise, be it ['close'] or
    ['error'], it first clears the timer if one was made and only then
    resolves or rejects; a pending timer is thereby cancelled, and
    whatever events follow, the timer is never pending again and no kill
    is sent after the settling. *)
Theorem timer_cleared_before_settling
    (h : Host) (cmd : string) (args : list string) (opts : RunOptions)
    (pre post : list Event) (ev : Event) (st1 : RunState) :
  settles ev = true ->
  run_state h cmd args opts pre = Fulfilled st1 ->
  exists s later st3,
    is_settle s = true /\
    effects (handle cmd st1 ev)
      = effects st1
          ++ (if has_timer (timeout st1) then [ClearTimeout; s] else [s]) /\
    timeout (handle cmd st1 ev)
      = (if armed (timeout st1) then Cleared else timeout st1) /\
    promise (handle cmd st1 ev) <> Pending /\
    run_state h cmd args opts (pre ++ ev :: post) = Fulfilled st3 /\
    effects st3 = effects (handle cmd st1 ev) ++ later /\
    Forall (fun e => is_kill e = false) later /\
    armed (timeout st3) = false.
Proof.
  intros Hs Hrun. unfold run_state in *.
  destruct (resolve_invocation h cmd args) as [[inv|e]|e|]; try discriminate.
  injection Hrun as <-.
  destruct (handle_settling cmd (deliver cmd (start opts inv) pre) ev Hs)
    as (s & Hsettle & Heff & Htimer & Hprom).
  assert (Hun : armed (timeout (handle cmd (deliver cmd (start opts inv) pre) ev))
                = false).
  { rewrite Htimer. by destruct (timeout (deliver cmd (start opts inv) pre)). }
  destruct (deliver_unarmed cmd post _ Hun) as (Hun3 & later & Heff3 & Hlater).
  exists s, later, (deliver cmd (start opts inv) (pre ++ ev :: post)).
  rewrite deliver_app. simpl. done.
Qed.

Lemma timer_cleared_before_settling_witness :
  exists st,
    run_state Examples.linux "agent" []
      (mkRunOptions None (Some (Finite 5000)) None)
      [EvStdout "done"; EvClose (Some 0%Z); EvTimeout] = Fulfilled st /\
    effects st
    = [Spawn "agent" [] (mkSpawnOptions None (Ignore, Pipe, Pipe) true);
       SetTimeout (Finite 5000); ClearTimeout;
       Resolve (mkRunResult 0 "done" "")] /\
    timeout st = Cleared.
Proof.
  destruct (timer_cleared_before_settling Examples.linux "agent" []
              (mkRunOptions None (Some (Finite 5000)) None)
              [EvStdout "done"] [EvTimeout] (EvClose (Some 0%Z))
              (deliver "agent"
                 (start (mkRunOptions None (Some (Finite 5000)) None)
                    (mkInvocation "agent" []))
                 [EvStdout "done"]))
    as (s & later & st3 & _ & _ & _ & _ & Hrun & _).
  - reflexivity.
  - reflexivity.
  - exists st3. split; [exact Hrun |].
    cbn [app] in Hrun. vm_compute in Hrun. injection Hrun as <-.
    split; reflexivity.
Defined.

(** ** C8: the input stream *)
Section Stdin.

Lemma truthy_spec (s : string) : truthy s = true <-> s <> "".
Proof. unfold truthy. destruct (String.eqb_spec s ""); naive_solver. Qed.




End Stdin.




(** ** C10: the agent binary of the plugin *)
Section AgentBin.

Lemma or_opt_pick (a b : option string) (v : string) :
  a = Some v -> v <> "" -> or_opt a b = Some v.
Proof.
  intros -> Hv. apply truthy_spec in Hv. unfold or_opt, truthy_opt.
  by rewrite Hv.
Qed.

Lemma or_opt_skip (a b : option string) :
  unset_or_empty a -> or_opt a b = b.
Proof. by intros [-> | ->]. Qed.

Lemma or_else_pick (a : option string) (d v : string) :
  a = Some v -> v <> "" -> or_else a d = v.
Proof.
  intros -> Hv. apply truthy_spec in Hv. unfold or_else. by rewrite Hv.
Qed.

Lemma or_else_skip (a : option string) (d : string) :
  unset_or_empty a -> or_else a d = d.
Proof. by intros [-> | ->]. Qed.

End AgentBin.

(** C10. [getCursorAgentBin] takes the first of [CURSOR_AGENT_BIN],
    [CURSOR_CLI_BIN] and [CURSOR_CLI_PATH] that is set and not empty, and
    the literal [agent] when none is: a non-empty [CURSOR_AGENT_BIN] wins
    over the other two and over the default whatever they are. *)
Theorem agent_bin_precedence (env : gmap string string) :
  (forall v, env !! "CURSOR_AGENT_BIN" = Some v -> v <> "" ->
     Plugin.getCursorAgentBin env = v) /\
  (unset_or_empty (env !! "CURSOR_AGENT_BIN") ->
   forall v, env !! "CURSOR_CLI_BIN" = Some v -> v <> "" ->
     Plugin.getCursorAgentBin env = v) /\
  (unset_or_empty (env !! "CURSOR_AGENT_BIN") ->
   unset_or_empty (env !! "CURSOR_CLI_BIN") ->
   forall v, env !! "CURSOR_CLI_PATH" = Some v -> v <> "" ->
     Plugin.getCursorAgentBin env = v) /\
  (unset_or_empty (env !! "CURSOR_AGENT_BIN") ->
   unset_or_empty (env !! "CURSOR_CLI_BIN") ->
   unset_or_empty (env !! "CURSOR_CLI_PATH") ->
     Plugin.getCursorAgentBin env = "agent").
Proof.
  unfold Plugin.getCursorAgentBin.
  split; [| split; [| split]].
  - intros v Ha Hv.
    by rewrite (or_opt_pick _ _ v Ha Hv), (or_opt_pick _ _ v eq_refl Hv),
      (or_else_pick _ _ v eq_refl Hv).
  - intros Ha v Hb Hv.
    by rewrite (or_opt_skip _ _ Ha), (or_opt_pick _ _ v Hb Hv),
      (or_else_pick _ _ v eq_refl Hv).
  - intros Ha Hb v Hc Hv.
    by rewrite (or_opt_skip _ _ Ha), (or_opt_skip _ _ Hb),
      (or_else_pick _ _ v Hc Hv).
  - intros Ha Hb Hc.
    by rewrite (or_opt_skip _ _ Ha), (or_opt_skip _ _ Hb), (or_else_skip _ _ Hc).
Qed.

Lemma agent_bin_precedence_witness :
  Plugin.getCursorAgentBin
    (<["CURSOR_AGENT_BIN" := "/opt/cursor/agent"]>
       (<["CURSOR_CLI_BIN" := "/usr/bin/cursor"]>
          (<["CURSOR_CLI_PATH" := "/usr/local/bin/cursor"]> ∅)))
  = "/opt/cursor/agent".
Proof.
  apply (proj1 (agent_bin_precedence _)).
  - reflexivity.
  - discriminate.
Defined.

(** * Further properties of the code *)

(** ** The workspace root *)
Section WorkspaceRoot.
Import Workspace Observations.

Lemma isDirectory_spec (h : Host) (p : string) :
  isDirectory h p =
  Fulfilled (match stat h p with Fulfilled b => b | Rejected _ => false end).
Proof. unfold isDirectory. by destruct (stat h p). Qed.

Lemma isDirectory_accepted (h : Host) (cand : string) :
  isDirectory h (resolve h cand) = Fulfilled (accepted h cand).
Proof.
  rewrite isDirectory_spec. unfold accepted.
  by destruct (stat h (resolve h cand)) as [[]|].
Qed.

Lemma first_directory_find (h : Host) (candidates : list string) :
  first_directory h candidates =
  match find (accepted h) candidates with
  | Some cand => Return (resolve h cand)
  | None => Normal tt
  end.
Proof.
  induction candidates as [|cand rest IH]; [done |].
  cbn [first_directory find]. rewrite isDirectory_accepted. cbn [await bind].
  by destruct (accepted h cand).
Qed.

Lemma first_real_directory_find (h : Host) (candidates : list string) :
  first_real_directory h candidates =
  match find (accepted_from_env h) candidates with
  | Some cand => Return (resolve h cand)
  | None => Normal tt
  end.
Proof.
  induction candidates as [|cand rest IH]; [done |].
  cbn [first_real_directory find]. unfold accepted_from_env at 1.
  destruct (looksLikeTempDir h (resolve h cand)); cbn [negb andb]; [done |].
  rewrite isDirectory_accepted. cbn [await bind].
  by destruct (accepted h cand).
Qed.

(** The function takes the first accepted candidate, the arguments before
    the variables, and fails with its own message when there is none. *)
Lemma resolveWorkspaceRoot_find (h : Host) (directory worktree : option string) :
  resolveWorkspaceRoot h directory worktree =
  match find (accepted h) (keep_candidates [worktree; directory]) with
  | Some cand => Fulfilled (resolve h cand)
  | None =>
      match find (accepted_from_env h)
              (keep_candidates ((fun k => env h !! k) <$> workspace_variables)) with
      | Some cand => Fulfilled (resolve h cand)
      | None => Rejected (NewError no_workspace_message)
      end
  end.
Proof.
  unfold resolveWorkspaceRoot.
  rewrite first_directory_find, first_real_directory_find.
  destruct (find (accepted h) _); [done |]. cbn [bind].
  by destruct (find (accepted_from_env h) _).
Qed.

Lemma keep_candidates_elem (values : list (option string)) (cand : string) :
  cand ∈ keep_candidates values <->
  Some cand ∈ values /\ trim cand <> "".
Proof.
  unfold keep_candidates. rewrite list_elem_of_omap. split.
  - intros (v & Hv & Hk). destruct v as [s|]; simpl in Hk; [| discriminate].
    destruct (0 <? String.length (trim s))%nat eqn:Hlen; [| discriminate].
    injection Hk as ->. split; [done |].
    apply Nat.ltb_lt in Hlen. intros E. rewrite E in Hlen. simpl in Hlen. lia.
  - intros [Hv Hne]. exists (Some cand). split; [done |]. simpl.
    destruct (trim cand) eqn:E; [done | reflexivity].
Qed.

Lemma accepted_spec (h : Host) (cand : string) :
  accepted h cand = true <-> stat h (resolve h cand) = Fulfilled true.
Proof.
  unfold accepted. destruct (stat h (resolve h cand)) as [[]|]; naive_solver.
Qed.

Lemma find_first {A} (f : A -> bool) (before after : list A) (x : A) :
  (forall y, y ∈ before -> f y = false) ->
  f x = true ->
  find f (before ++ x :: after) = Some x.
Proof.
  intros Hb Hx. induction before as [|y before IH]; simpl.
  - by rewrite Hx.
  - rewrite (Hb y) by apply list_elem_of_here.
    apply IH. intros z Hz. apply Hb. by apply list_elem_of_further.
Qed.

Lemma find_none_elem {A} (f : A -> bool) (l : list A) :
  find f l = None <-> forall y, y ∈ l -> f y = false.
Proof.
  split.
  - intros H y Hy. apply (find_none f l H). by apply list_elem_of_In.
  - intros H. induction l as [|x l IH]; [done |]. simpl.
    rewrite (H x) by apply list_elem_of_here.
    apply IH. intros y Hy. apply H. by apply list_elem_of_further.
Qed.

Lemma find_some_elem {A} (f : A -> bool) (l : list A) (x : A) :
  find f l = Some x -> x ∈ l /\ f x = true.
Proof.
  intros H. destruct (find_some f l H) as [Hin Hf].
  split; [by apply list_elem_of_In | done].
Qed.

End WorkspaceRoot.

(** X1. A workspace root that [resolveWorkspaceRoot] resolves to is a
    directory, and it is the resolved form of a non-blank candidate: of
    one of the two arguments, or of one of the four variables
    [OPENCODE_DIRECTORY], [OPENCODE_WORKSPACE], [INIT_CWD] and [PWD], and
    then it does not look like a temporary directory. *)
Theorem workspace_root_is_accepted_candidate
    (h : Workspace.Host) (directory worktree : option string) (root : string) :
  Workspace.resolveWorkspaceRoot h directory worktree = Fulfilled root ->
  Workspace.stat h root = Fulfilled true /\
  ((exists cand,
       (worktree = Some cand \/ directory = Some cand) /\
       trim cand <> "" /\ root = Workspace.resolve h cand) \/
   (exists k cand,
       k ∈ Observations.workspace_variables /\
       Workspace.env h !! k = Some cand /\
       trim cand <> "" /\ root = Workspace.resolve h cand /\
       Workspace.looksLikeTempDir h root = false)).
Proof.
  rewrite resolveWorkspaceRoot_find.
  destruct (find (Observations.accepted h) _) as [cand|] eqn:Hargs.
  - intros [= <-]. apply find_some_elem in Hargs as [Hin Hacc].
    apply keep_candidates_elem in Hin as [Hin Hne].
    split; [by apply accepted_spec |]. left. exists cand.
    split; [| done].
    apply elem_of_cons in Hin as [Hin | Hin]; [left; congruence |].
    apply list_elem_of_singleton in Hin. right. congruence.
  - destruct (find (Observations.accepted_from_env h) _) as [cand|] eqn:Henv;
      [| discriminate].
    intros [= <-]. apply find_some_elem in Henv as [Hin Hacc].
    apply keep_candidates_elem in Hin as [Hin Hne].
    apply list_elem_of_fmap in Hin as (k & Hk & Hin).
    unfold Observations.accepted_from_env in Hacc.
    apply andb_true_iff in Hacc as [Htmp Hacc].
    split; [by apply accepted_spec |]. right. exists k, cand.
    split; [done |]. split; [done |]. split; [done |]. split; [done |].
    by apply negb_true_iff.
Qed.

Lemma workspace_root_is_accepted_candidate_witness :
  Workspace.stat
    (Observations.dev_machine (<["PWD" := "/home/dev/project"]> ∅))
    "/home/dev/project" = Fulfilled true.
Proof.
  apply (workspace_root_is_accepted_candidate
           (Observations.dev_machine (<["PWD" := "/home/dev/project"]> ∅))
           None None "/home/dev/project").
  vm_compute. reflexivity.
Defined.

Section WorkspaceOrder.
Import Workspace Observations.

Lemma keep_candidates_cons_some (cand : string) (values : list (option string)) :
  trim cand <> "" ->
  keep_candidates (Some cand :: values) = cand :: keep_candidates values.
Proof.
  intros Hne. unfold keep_candidates. simpl.
  by destruct (trim cand) eqn:E.
Qed.

Lemma keep_candidates_app (l1 l2 : list (option string)) :
  keep_candidates (l1 ++ l2) = keep_candidates l1 ++ keep_candidates l2.
Proof. apply omap_app. Qed.

(** No argument is accepted. *)
Lemma arguments_rejected (h : Host) (directory worktree : option string) :
  (forall cand, worktree = Some cand \/ directory = Some cand ->
                trim cand = "" \/ accepted h cand = false) ->
  find (accepted h) (keep_candidates [worktree; directory]) = None.
Proof.
  intros H. apply find_none_elem. intros cand Hin.
  apply keep_candidates_elem in Hin as [Hin Hne].
  assert (Hc : worktree = Some cand \/ directory = Some cand).
  { apply elem_of_cons in Hin as [Hin | Hin]; [left; congruence |].
    apply list_elem_of_singleton in Hin. right. congruence. }
  destruct (H cand Hc); [contradiction | done].
Qed.

End WorkspaceOrder.

(** X2. A directory passed as an argument is taken before anything else is
    looked at, and without the test for temporary directories: a
    non-blank [worktree] that resolves to a directory is the result
    whatever [directory] and the environment are; a non-blank [directory]
    that resolves to a directory is the result when [worktree] is absent,
    blank or not a directory. *)
Theorem arguments_take_precedence
    (h : Workspace.Host) (directory worktree : option string) :
  (forall w,
     worktree = Some w -> trim w <> "" ->
     Workspace.stat h (Workspace.resolve h w) = Fulfilled true ->
     Workspace.resolveWorkspaceRoot h directory worktree
       = Fulfilled (Workspace.resolve h w)) /\
  (forall d,
     directory = Some d -> trim d <> "" ->
     Workspace.stat h (Workspace.resolve h d) = Fulfilled true ->
     (forall w, worktree = Some w ->
        trim w = "" \/
        Workspace.stat h (Workspace.resolve h w) <> Fulfilled true) ->
     Workspace.resolveWorkspaceRoot h directory worktree
       = Fulfilled (Workspace.resolve h d)).
Proof.
  split.
  - intros w -> Hne Hdir. rewrite resolveWorkspaceRoot_find.
    rewrite (keep_candidates_cons_some w _ Hne). simpl.
    by rewrite (proj2 (accepted_spec h w) Hdir).
  - intros d -> Hne Hdir Hw. rewrite resolveWorkspaceRoot_find.
    assert (Hfind : find (Observations.accepted h)
                      (Workspace.keep_candidates [worktree; Some d]) = Some d).
    { change [worktree; Some d] with ([worktree] ++ Some d :: []).
      rewrite keep_candidates_app, (keep_candidates_cons_some d _ Hne).
      apply find_first; [| by apply accepted_spec].
      intros y Hy. apply keep_candidates_elem in Hy as [Hy Hyne].
      apply list_elem_of_singleton in Hy.
      destruct (Hw y (eq_sym Hy)) as [? | Hnot]; [contradiction |].
      destruct (Observations.accepted h y) eqn:E; [| done].
      by apply accepted_spec in E. }
    by rewrite Hfind.
Qed.

Lemma arguments_take_precedence_witness :
  Workspace.resolveWorkspaceRoot
    (Observations.dev_machine (<["PWD" := "/home/dev/project"]> ∅))
    (Some "/tmp/cursor-openai-bridge-7f3a") (Some "notes.txt")
  = Fulfilled "/tmp/cursor-openai-bridge-7f3a" /\
  Workspace.looksLikeTempDir
    (Observations.dev_machine (<["PWD" := "/home/dev/project"]> ∅))
    "/tmp/cursor-openai-bridge-7f3a" = true.
Proof.
  split; [| vm_compute; reflexivity].
  apply (proj2 (arguments_take_precedence
                  (Observations.dev_machine (<["PWD" := "/home/dev/project"]> ∅))
                  (Some "/tmp/cursor-openai-bridge-7f3a") (Some "notes.txt"))
           "/tmp/cursor-openai-bridge-7f3a").
  - reflexivity.
  - vm_compute. discriminate.
  - vm_compute. reflexivity.
  - intros w [= <-]. right. vm_compute. discriminate.
Defined.

(** X3. When no argument is accepted, the variables are tried in the order
    [OPENCODE_DIRECTORY], [OPENCODE_WORKSPACE], [INIT_CWD], [PWD]: the
    result is the resolved value of the first one that is non-blank, does
    not look like a temporary directory and is a directory; a variable
    whose value looks temporary is passed over even when it is a
    directory. *)
Theorem variables_are_tried_in_order
    (h : Workspace.Host) (directory worktree : option string)
    (before after : list string) (k cand : string) :
  Observations.workspace_variables = before ++ k :: after ->
  (forall c, worktree = Some c \/ directory = Some c ->
             trim c = "" \/ Observations.accepted h c = false) ->
  (forall k' c, k' ∈ before -> Workspace.env h !! k' = Some c ->
                trim c = "" \/
                Workspace.looksLikeTempDir h (Workspace.resolve h c) = true \/
                Workspace.stat h (Workspace.resolve h c) <> Fulfilled true) ->
  Workspace.env h !! k = Some cand ->
  trim cand <> "" ->
  Workspace.looksLikeTempDir h (Workspace.resolve h cand) = false ->
  Workspace.stat h (Workspace.resolve h cand) = Fulfilled true ->
  Workspace.resolveWorkspaceRoot h directory worktree
    = Fulfilled (Workspace.resolve h cand).
Proof.
  intros Hvars Hargs Hbefore Hk Hne Htmp Hdir.
  rewrite resolveWorkspaceRoot_find, (arguments_rejected h _ _ Hargs).
  rewrite Hvars, fmap_app, fmap_cons, Hk, keep_candidates_app.
  rewrite (keep_candidates_cons_some cand _ Hne).
  rewrite find_first; [done | |].
  - intros y Hy. apply keep_candidates_elem in Hy as [Hy Hyne].
    apply list_elem_of_fmap in Hy as (k' & Hlook & Hk').
    unfold Observations.accepted_from_env.
    destruct (Hbefore k' y Hk' (eq_sym Hlook)) as [? | [-> | Hnot]];
      [contradiction | done |].
    destruct (Observations.accepted h y) eqn:E; [| by rewrite andb_false_r].
    by apply accepted_spec in E.
  - unfold Observations.accepted_from_env. rewrite Htmp.
    by apply accepted_spec.
Qed.

Lemma variables_are_tried_in_order_witness :
  Workspace.resolveWorkspaceRoot
    (Observations.dev_machine
       (<["OPENCODE_DIRECTORY" := "/tmp/cursor-openai-bridge-7f3a"]>
          (<["INIT_CWD" := "project"]> (<["PWD" := "/"]> ∅))))
    None (Some "   ")
  = Fulfilled "/home/dev/project".
Proof.
  refine (variables_are_tried_in_order
            (Observations.dev_machine
               (<["OPENCODE_DIRECTORY" := "/tmp/cursor-openai-bridge-7f3a"]>
                  (<["INIT_CWD" := "project"]> (<["PWD" := "/"]> ∅))))
            None (Some "   ")
            ["OPENCODE_DIRECTORY"; "OPENCODE_WORKSPACE"] ["PWD"]
            "INIT_CWD" "project" _ _ _ _ _ _ _).
  - reflexivity.
  - intros c [[= <-] | [=]]. left. vm_compute. reflexivity.
  - intros k' c Hk' Hc. apply elem_of_cons in Hk' as [-> | Hk'].
    + vm_compute in Hc. injection Hc as <-. right. left.
      vm_compute. reflexivity.
    + apply list_elem_of_singleton in Hk' as ->. vm_compute in Hc.
      discriminate.
  - vm_compute. reflexivity.
  - vm_compute. discriminate.
  - vm_compute. reflexivity.
  - vm_compute. reflexivity.
Defined.

(** X4. [resolveWorkspaceRoot] fails in one way only: with its own
    message, and exactly when no non-blank argument resolves to a
    directory and no non-blank value of the four variables resolves to a
    directory that does not look temporary. An error of [stat] is never
    passed on; when [stat] finds no directory anywhere the function
    rejects with the message. *)
Theorem workspace_failure_has_one_message
    (h : Workspace.Host) (directory worktree : option string) :
  (forall e, Workspace.resolveWorkspaceRoot h directory worktree = Rejected e ->
             e = NewError Workspace.no_workspace_message) /\
  (Workspace.resolveWorkspaceRoot h directory worktree
     = Rejected (NewError Workspace.no_workspace_message) <->
   (forall c, c ∈ Workspace.keep_candidates [worktree; directory] ->
              Observations.accepted h c = false) /\
   (forall c, c ∈ Workspace.keep_candidates
                    ((fun k => Workspace.env h !! k)
                       <$> Observations.workspace_variables) ->
              Observations.accepted_from_env h c = false)) /\
  ((forall p, Workspace.stat h p <> Fulfilled true) ->
   Workspace.resolveWorkspaceRoot h directory worktree
     = Rejected (NewError Workspace.no_workspace_message)).
Proof.
  rewrite resolveWorkspaceRoot_find. rewrite <- !find_none_elem.
  split; [| split].
  - intros e. destruct (find (Observations.accepted h) _); [discriminate |].
    destruct (find (Observations.accepted_from_env h) _); [discriminate |].
    by intros [= <-].
  - destruct (find (Observations.accepted h) _);
      [split; [discriminate | intros [? _]; discriminate] |].
    destruct (find (Observations.accepted_from_env h) _);
      [split; [discriminate | intros [_ ?]; discriminate] | done].
  - intros Hnone.
    assert (Hacc : forall c, Observations.accepted h c = false).
    { intros c. destruct (Observations.accepted h c) eqn:E; [| done].
      apply accepted_spec in E. by destruct (Hnone _ E). }
    rewrite (proj2 (find_none_elem (Observations.accepted h) _))
      by (intros; apply Hacc).
    rewrite (proj2 (find_none_elem (Observations.accepted_from_env h) _));
      [done |].
    intros c _. unfold Observations.accepted_from_env.
    by rewrite Hacc, andb_false_r.
Qed.

Lemma workspace_failure_has_one_message_witness :
  Workspace.resolveWorkspaceRoot
    (Workspace.mkHost (<["PWD" := "/srv/app"]> ∅) "/"
       Observations.posix_resolve
       (fun _ => Rejected (Errno (mkErrno (Some "EACCES") "EACCES: permission denied, stat"))))
    (Some "/srv/app") None
  = Rejected (NewError Workspace.no_workspace_message).
Proof.
  apply workspace_failure_has_one_message. intros p. discriminate.
Defined.

(** X5. The result of [resolveWorkspaceRoot] depends on the environment
    through [OPENCODE_DIRECTORY], [OPENCODE_WORKSPACE], [INIT_CWD] and
    [PWD] only. In particular the variable [CURSOR_BRIDGE_WORKSPACE],
    which the message of the failure tells the user to set, is not read:
    setting it changes nothing. *)
Theorem workspace_root_reads_four_variables
    (h : Workspace.Host) (directory worktree : option string) :
  (forall vars,
     (forall k, k ∈ Observations.workspace_variables ->
                vars !! k = Workspace.env h !! k) ->
     Workspace.resolveWorkspaceRoot (Observations.with_env h vars)
       directory worktree
     = Workspace.resolveWorkspaceRoot h directory worktree) /\
  (forall v,
     Workspace.resolveWorkspaceRoot
       (Observations.with_env h
          (<["CURSOR_BRIDGE_WORKSPACE" := v]> (Workspace.env h)))
       directory worktree
     = Workspace.resolveWorkspaceRoot h directory worktree) /\
  includes "CURSOR_BRIDGE_WORKSPACE" Workspace.no_workspace_message = true.
Proof.
  assert (Hagree : forall vars,
    (forall k, k ∈ Observations.workspace_variables ->
               vars !! k = Workspace.env h !! k) ->
    Workspace.resolveWorkspaceRoot (Observations.with_env h vars)
      directory worktree
    = Workspace.resolveWorkspaceRoot h directory worktree).
  { intros vars Hvars. rewrite !resolveWorkspaceRoot_find.
    change (Observations.accepted (Observations.with_env h vars))
      with (Observations.accepted h).
    change (Observations.accepted_from_env (Observations.with_env h vars))
      with (Observations.accepted_from_env h).
    change (Workspace.resolve (Observations.with_env h vars))
      with (Workspace.resolve h).
    change (Workspace.env (Observations.with_env h vars)) with vars.
    replace ((fun k => vars !! k) <$> Observations.workspace_variables)
      with ((fun k => Workspace.env h !! k) <$> Observations.workspace_variables);
      [done |].
    apply list_fmap_ext. intros i k Hk. symmetry. apply Hvars.
    by apply list_elem_of_lookup_2 in Hk. }
  split; [exact Hagree |]. split; [| vm_compute; reflexivity].
  intros v. apply Hagree. intros k Hk.
  apply lookup_insert_ne. intros <-.
  unfold Observations.workspace_variables in Hk.
  repeat (apply elem_of_cons in Hk as [Hk | Hk]; [discriminate |]).
  by apply elem_of_nil in Hk.
Qed.

Lemma workspace_root_reads_four_variables_witness :
  Workspace.resolveWorkspaceRoot
    (Observations.dev_machine
       (<["CURSOR_BRIDGE_WORKSPACE" := "/home/dev/project"]>
          (<["PWD" := "/tmp/cursor-openai-bridge-7f3a"]> ∅)))
    None None
  = Rejected (NewError Workspace.no_workspace_message).
Proof.
  transitivity
    (Workspace.resolveWorkspaceRoot
       (Observations.dev_machine (<["PWD" := "/tmp/cursor-openai-bridge-7f3a"]> ∅))
       None None).
  - refine (proj1 (workspace_root_reads_four_variables
                     (Observations.dev_machine
                        (<["PWD" := "/tmp/cursor-openai-bridge-7f3a"]> ∅))
                     None None)
              (<["CURSOR_BRIDGE_WORKSPACE" := "/home/dev/project"]>
                 (<["PWD" := "/tmp/cursor-openai-bridge-7f3a"]> ∅)) _).
    intros k Hk. unfold Observations.workspace_variables in Hk.
    repeat (apply elem_of_cons in Hk as [-> | Hk]; [vm_compute; reflexivity |]).
    by apply elem_of_nil in Hk.
  - vm_compute. reflexivity.
Defined.

(** ** The agent binary and the entry point of the plugin *)
Section PluginEntry.

Lemma or_opt_cases (a b : option string) :
  (exists v, a = Some v /\ v <> "" /\ or_opt a b = Some v) \/
  (unset_or_empty a /\ or_opt a b = b).
Proof.
  destruct a as [v|]; [| right; split; [by left | done]].
  destruct (String.eqb_spec v "") as [-> | Hne].
  - right. split; [by right | done].
  - left. exists v. split; [done |]. split; [done |].
    by apply or_opt_pick.
Qed.

Lemma getCursorAgentBin_cases (env : gmap string string) :
  (Plugin.getCursorAgentBin env = "agent" \/
   exists k, k ∈ Plugin.bin_variables /\
             env !! k = Some (Plugin.getCursorAgentBin env)) /\
  Plugin.getCursorAgentBin env <> "".
Proof.
  unfold Plugin.getCursorAgentBin, Plugin.bin_variables.
  destruct (or_opt_cases (env !! "CURSOR_AGENT_BIN") (env !! "CURSOR_CLI_BIN"))
    as [(v & Ha & Hne & ->) | [Ha ->]].
  - rewrite (or_opt_pick _ _ v eq_refl Hne), (or_else_pick _ _ v eq_refl Hne).
    split; [| done]. right. exists "CURSOR_AGENT_BIN".
    split; [apply list_elem_of_here | done].
  - destruct (or_opt_cases (env !! "CURSOR_CLI_BIN") (env !! "CURSOR_CLI_PATH"))
      as [(v & Hb & Hne & ->) | [Hb ->]].
    + rewrite (or_else_pick _ _ v eq_refl Hne).
      split; [| done]. right. exists "CURSOR_CLI_BIN".
      split; [| done]. apply list_elem_of_further, list_elem_of_here.
    + destruct (env !! "CURSOR_CLI_PATH") as [v|] eqn:Hc;
        [| split; [by left | done]].
      destruct (String.eqb_spec v "") as [-> | Hne];
        [split; [by left | done] |].
      rewrite (or_else_pick _ _ v eq_refl Hne).
      split; [| done]. right. exists "CURSOR_CLI_PATH".
      split; [| done]. do 2 apply list_elem_of_further. apply list_elem_of_here.
Qed.

Lemma workspace_root_stat (h : Workspace.Host)
    (directory worktree : option string) (root : string) :
  Workspace.resolveWorkspaceRoot h directory worktree = Fulfilled root ->
  Workspace.stat h root = Fulfilled true.
Proof.
  rewrite resolveWorkspaceRoot_find.
  destruct (find (Observations.accepted h) _) as [cand|] eqn:Hargs.
  - intros [= <-]. apply find_some_elem in Hargs as [_ Hacc].
    by apply accepted_spec.
  - destruct (find (Observations.accepted_from_env h) _) as [cand|] eqn:Henv;
      [| discriminate].
    intros [= <-]. apply find_some_elem in Henv as [_ Hacc].
    apply andb_true_iff in Hacc as [_ Hacc]. by apply accepted_spec.
Qed.

End PluginEntry.

(** X6. [getCursorAgentBin] never yields the empty string: its result is
    the literal [agent] or the value, not empty, of one of
    [CURSOR_AGENT_BIN], [CURSOR_CLI_BIN] and [CURSOR_CLI_PATH]; and it
    depends on the environment through these three variables only. *)
Theorem agent_bin_is_never_empty (env : gmap string string) :
  Plugin.getCursorAgentBin env <> "" /\
  (Plugin.getCursorAgentBin env = "agent" \/
   exists k, k ∈ Plugin.bin_variables /\
             env !! k = Some (Plugin.getCursorAgentBin env)) /\
  (forall env' : gmap string string,
     (forall k, k ∈ Plugin.bin_variables -> env' !! k = env !! k) ->
     Plugin.getCursorAgentBin env' = Plugin.getCursorAgentBin env).
Proof.
  destruct (getCursorAgentBin_cases env) as [Hcases Hne].
  split; [done |]. split; [done |].
  intros env' Hsame. unfold Plugin.getCursorAgentBin.
  rewrite !Hsame; [done | | |]; unfold Plugin.bin_variables.
  - do 2 apply list_elem_of_further. apply list_elem_of_here.
  - apply list_elem_of_further, list_elem_of_here.
  - apply list_elem_of_here.
Qed.

(** X7. When [CursorPlugin] resolves, it has awaited the status shim and
    then started the bridge exactly once, with the agent binary of
    [getCursorAgentBin] (which is not empty) and with the workspace root,
    which is a directory; and in its tool table a name offered by several
    of the three tool sets is taken from the cloud tools first, then from
    the CLI tools, then from the bridge tools. *)
Theorem plugin_starts_bridge_in_workspace
    {Tool : Type} (h : Workspace.Host) (c : Workspace.Collaborators Tool)
    (directory worktree : option string)
    (calls : list Workspace.call) (tools : gmap string Tool) :
  Workspace.CursorPlugin h c directory worktree = (calls, Fulfilled tools) ->
  exists agentBin cwd,
    calls = [Workspace.StatusShim; Workspace.BridgeProcess agentBin cwd] /\
    agentBin = Plugin.getCursorAgentBin (Workspace.env h) /\
    agentBin <> "" /\
    Workspace.resolveWorkspaceRoot h directory worktree = Fulfilled cwd /\
    Workspace.stat h cwd = Fulfilled true /\
    Workspace.ensureBridgeProcess c agentBin cwd = Fulfilled tt /\
    forall name,
      tools !! name =
      match Workspace.createCloudTools c cwd !! name with
      | Some t => Some t
      | None =>
          match Workspace.createCliTools c agentBin cwd (or_opt worktree None)
                  !! name with
          | Some t => Some t
          | None => Workspace.createBridgeTools c agentBin cwd !! name
          end
      end.
Proof.
  unfold Workspace.CursorPlugin.
  destruct (Workspace.resolveWorkspaceRoot h directory worktree) as [cwd|e]
    eqn:Hroot; [| intros [= _ ?]; discriminate].
  destruct (Workspace.ensurePluginShowsVersionInStatus c) as [[]|e]; simpl.
  all: destruct (Workspace.ensureBridgeProcess c _ cwd) as [[]|e'] eqn:Hbridge;
    [| intros [= _ ?]; discriminate].
  all: intros [= <- <-];
    exists (Plugin.getCursorAgentBin (Workspace.env h)), cwd.
  all: split; [done |]; split; [done |].
  all: split; [apply getCursorAgentBin_cases |].
  all: split; [done |].
  all: split; [exact (workspace_root_stat h directory worktree cwd Hroot) |].
  all: split; [done |].
  all: intros name; unfold Workspace.spread3;
    rewrite !lookup_union;
    destruct (Workspace.createCloudTools c cwd !! name),
      (Workspace.createCliTools c _ cwd _ !! name),
      (Workspace.createBridgeTools c _ cwd !! name); done.
Qed.

Lemma plugin_starts_bridge_in_workspace_witness :
  exists tools,
    Workspace.CursorPlugin
      (Observations.dev_machine (<["PWD" := "/home/dev/project"]> ∅))
      Observations.sample_collaborators None None
    = ([Workspace.StatusShim;
        Workspace.BridgeProcess "agent" "/home/dev/project"],
       Fulfilled tools) /\
    tools !! "ask" = Some "cli" /\
    tools !! "models" = Some "bridge" /\
    tools !! "agents" = Some "cloud".
Proof.
  pose (tools :=
    Workspace.spread3
      (Workspace.createBridgeTools Observations.sample_collaborators
         "agent" "/home/dev/project")
      (Workspace.createCliTools Observations.sample_collaborators
         "agent" "/home/dev/project" None)
      (Workspace.createCloudTools Observations.sample_collaborators
         "/home/dev/project")).
  assert (H : Workspace.CursorPlugin
                (Observations.dev_machine (<["PWD" := "/home/dev/project"]> ∅))
                Observations.sample_collaborators None None
              = ([Workspace.StatusShim;
                  Workspace.BridgeProcess "agent" "/home/dev/project"],
                 Fulfilled tools)).
  { vm_compute. reflexivity. }
  destruct (plugin_starts_bridge_in_workspace _ _ _ _ _ _ H)
    as (agentBin & cwd & Hcalls & _ & _ & _ & _ & _ & Hlookup).
  injection Hcalls as <- <-.
  exists tools. split; [exact H |].
  rewrite !Hlookup. vm_compute. done.
Defined.

(** X8. [CursorPlugin] rejects only in two ways: with the message of
    [resolveWorkspaceRoot], and then it has called neither the status shim
    nor the bridge; or with the error of [ensureBridgeProcess]. A failure
    of the status shim changes neither the calls made nor the result. *)
Theorem plugin_failures
    {Tool : Type} (h : Workspace.Host) (c : Workspace.Collaborators Tool)
    (directory worktree : option string) :
  (forall e,
     Workspace.resolveWorkspaceRoot h directory worktree = Rejected e ->
     Workspace.CursorPlugin h c directory worktree = ([], Rejected e)) /\
  (forall calls e,
     Workspace.CursorPlugin h c directory worktree = (calls, Rejected e) ->
     (calls = [] /\ e = NewError Workspace.no_workspace_message) \/
     (exists cwd,
        Workspace.resolveWorkspaceRoot h directory worktree = Fulfilled cwd /\
        calls = [Workspace.StatusShim;
                 Workspace.BridgeProcess
                   (Plugin.getCursorAgentBin (Workspace.env h)) cwd] /\
        Workspace.ensureBridgeProcess c
          (Plugin.getCursorAgentBin (Workspace.env h)) cwd = Rejected e)) /\
  (forall shim,
     Workspace.CursorPlugin h
       (Workspace.mkCollaborators Tool shim
          (Workspace.ensureBridgeProcess c) (Workspace.createBridgeTools c)
          (Workspace.createCliTools c) (Workspace.createCloudTools c))
       directory worktree
     = Workspace.CursorPlugin h c directory worktree).
Proof.
  split; [| split].
  - intros e He. unfold Workspace.CursorPlugin. by rewrite He.
  - intros calls e. unfold Workspace.CursorPlugin.
    destruct (Workspace.resolveWorkspaceRoot h directory worktree) as [cwd|e0]
      eqn:Hroot.
    + destruct (Workspace.ensurePluginShowsVersionInStatus c) as [[]|e1]; simpl.
      all: destruct (Workspace.ensureBridgeProcess c _ cwd) as [[]|e'] eqn:Hb;
        [intros [= _ ?]; discriminate |].
      all: intros [= <- <-]; right; exists cwd; done.
    + intros [= <- <-]. left. split; [done |].
      rewrite resolveWorkspaceRoot_find in Hroot.
      destruct (find (Observations.accepted h) _); [discriminate |].
      destruct (find (Observations.accepted_from_env h) _); [discriminate |].
      by injection Hroot as <-.
  - intros shim. unfold Workspace.CursorPlugin.
    destruct (Workspace.resolveWorkspaceRoot h directory worktree); [| done].
    by destruct shim as [[]|], (Workspace.ensurePluginShowsVersionInStatus c)
      as [[]|].
Qed.

Lemma plugin_failures_witness :
  Workspace.CursorPlugin
    (Observations.dev_machine (<["PWD" := "/tmp/cursor-openai-bridge-7f3a"]> ∅))
    Observations.sample_collaborators None None
  = ([], Rejected (NewError Workspace.no_workspace_message)).
Proof.
  apply (proj1 (plugin_failures
                  (Observations.dev_machine
                     (<["PWD" := "/tmp/cursor-openai-bridge-7f3a"]> ∅))
                  Observations.sample_collaborators None None)).
  vm_compute. reflexivity.
Defined.

(** ** More on the resolution step *)
Section Redirection.
Import Observations.

Lemma versions_nonempty (entries : list string) :
  versions entries <> [] <->
  exists e, e ∈ entries /\ is_version_name e.
Proof.
  split.
  - destruct (versions entries) as [|x l] eqn:E; [done |]. intros _.
    assert (Hx : x ∈ versions entries) by (rewrite E; apply list_elem_of_here).
    apply versions_elem_of in Hx as [Hin Hre].
    exists x. split; [done | by apply version_re_spec].
  - intros (e & Hin & Hv) E.
    assert (He : e ∈ versions entries).
    { apply versions_elem_of. split; [done | by apply version_re_spec]. }
    rewrite E in He. by apply elem_of_nil in He.
Qed.

Lemma from_listing_some (h : Host) (agentPath : string)
    (entries : list string) (r : ResolvedInvocation) :
  from_listing h agentPath entries = Fulfilled (Some r) ->
  exists latest,
    latest ∈ entries /\ is_version_name latest /\
    r = mkResolved
          (join h [join h [dirname h agentPath; "versions"]; latest; "node.exe"])
          [join h [join h [dirname h agentPath; "versions"]; latest; "index.js"]].
Proof.
  unfold from_listing.
  destruct (versions entries) as [|latest rest] eqn:E; [discriminate |].
  intros [= <-]. exists latest.
  assert (Hx : latest ∈ versions entries) by (rewrite E; apply list_elem_of_here).
  apply versions_elem_of in Hx as [Hin Hre].
  split; [done |]. split; [by apply version_re_spec | done].
Qed.

Lemma from_listing_nil (h : Host) (agentPath : string) :
  from_listing h agentPath [] = Fulfilled None.
Proof. reflexivity. Qed.

Lemma resolve_needs_agent_command (h : Host) (cmd : string) :
  endsWith cmd "agent.cmd" = false -> cmd <> "agent" ->
  resolveWindowsCursorAgent h cmd = Fulfilled None.
Proof.
  intros He Hc. rewrite resolve_cases, He.
  destruct (String.eqb_spec cmd "agent"); [done |].
  by destruct (negb (String.eqb (platform (host h)) "win32")).
Qed.

End Redirection.

(** X9. A redirection is given only for the agent wrapper on Windows, and
    it always points into a version directory that exists in the listing:
    when [resolveWindowsCursorAgent] resolves to a value, the platform is
    [win32], the command is the bare name [agent] or ends in [agent.cmd],
    and the value names [node.exe] and [index.js] inside an entry, matching
    the version pattern, of the [versions] directory beside a wrapper
    script whose path ends in [agent.cmd] (the command itself unless it is
    the bare name). *)
Theorem redirection_points_into_listed_version
    (h : Host) (cmd : string) (r : ResolvedInvocation) :
  resolveWindowsCursorAgent h cmd = Fulfilled (Some r) ->
  platform h = "win32" /\
  (cmd = "agent" \/ endsWith cmd "agent.cmd" = true) /\
  exists agentPath entries latest,
    endsWith agentPath "agent.cmd" = true /\
    (cmd <> "agent" -> agentPath = cmd) /\
    readdir h (join h [dirname h agentPath; "versions"]) = Fulfilled entries /\
    latest ∈ entries /\ is_version_name latest /\
    r = mkResolved
          (join h [join h [dirname h agentPath; "versions"]; latest; "node.exe"])
          [join h [join h [dirname h agentPath; "versions"]; latest; "index.js"]].
Proof.
  intros Hr.
  destruct (resolved_shape h cmd r Hr) as [Hp _]. split; [done |].
  destruct (String.eqb_spec cmd "agent") as [-> | Hne].
  - split; [by left |].
    destruct (where_agent h) as [chunks|e] eqn:Hw;
      [| by rewrite (resolve_where_throws h e Hw) in Hr].
    rewrite (resolve_bare_name h chunks Hp Hw) in Hr.
    destruct (truthy _ && endsWith _ "agent.cmd") eqn:Hout; [| discriminate].
    apply andb_true_iff in Hout as [_ Hends].
    destruct (readdir h _) as [entries|e] eqn:Hd;
      [| by rewrite from_listing_nil in Hr].
    injection Hr as Hr.
    apply from_listing_some in Hr as (latest & Hin & Hv & ->).
    by eexists _, entries, latest.
  - destruct (endsWith cmd "agent.cmd") eqn:Hends;
      [| by rewrite (resolve_needs_agent_command h cmd Hends Hne) in Hr].
    split; [by right |].
    rewrite (resolve_wrapper_path h cmd Hp Hends) in Hr.
    destruct (readdir h _) as [entries|e] eqn:Hd;
      [| by rewrite from_listing_nil in Hr].
    injection Hr as Hr.
    apply from_listing_some in Hr as (latest & Hin & Hv & ->).
    by exists cmd, entries, latest.
Qed.

Lemma redirection_points_into_listed_version_witness :
  platform (Examples.windows (Fulfilled Examples.two_versions)) = "win32".
Proof.
  refine (proj1 (redirection_points_into_listed_version
                   (Examples.windows (Fulfilled Examples.two_versions)) "agent"
                   (mkResolved "C:\tools\versions\2024.10.1-def456\node.exe"
                      ["C:\tools\versions\2024.10.1-def456\index.js"]) _)).
  vm_compute. reflexivity.
Defined.

(** X10. On Windows, for a command that ends in [agent.cmd], the
    redirection happens exactly when the listing of the [versions]
    directory has an entry that matches the version pattern; when the
    listing fails there is none. *)
Theorem redirection_iff_version_listed (h : Host) (cmd : string) :
  platform h = "win32" ->
  endsWith cmd "agent.cmd" = true ->
  (forall entries,
     readdir h (join h [dirname h cmd; "versions"]) = Fulfilled entries ->
     ((exists r, resolveWindowsCursorAgent h cmd = Fulfilled (Some r)) <->
      exists e, e ∈ entries /\ is_version_name e)) /\
  (forall e,
     readdir h (join h [dirname h cmd; "versions"]) = Rejected e ->
     resolveWindowsCursorAgent h cmd = Fulfilled None).
Proof.
  intros Hp Hc. rewrite (resolve_wrapper_path h cmd Hp Hc). split.
  - intros entries ->. rewrite <- versions_nonempty. unfold from_listing.
    destruct (versions entries) as [|latest rest]; split.
    + intros [r [=]].
    + done.
    + done.
    + intros _. by eexists.
  - by intros e ->.
Qed.

Lemma redirection_iff_version_listed_witness :
  resolveWindowsCursorAgent
    (Examples.windows (Fulfilled ["README.md"; "2024.1.2-ABC"; "latest"]))
    "C:\tools\agent.cmd"
  = Fulfilled None.
Proof.
  destruct (redirection_iff_version_listed
              (Examples.windows (Fulfilled ["README.md"; "2024.1.2-ABC"; "latest"]))
              "C:\tools\agent.cmd") as [Hiff _].
  - reflexivity.
  - vm_compute. reflexivity.
  - destruct (resolve_fulfilled
                (Examples.windows
                   (Fulfilled ["README.md"; "2024.1.2-ABC"; "latest"]))
                "C:\tools\agent.cmd") as [[r|] Hr]; [| exact Hr].
    destruct (proj1 (Hiff _ eq_refl) (ex_intro _ r Hr)) as (e & Hin & Hv).
    apply version_re_spec in Hv.
    repeat (apply elem_of_cons in Hin as [-> | Hin];
            [vm_compute in Hv; discriminate |]).
    by apply elem_of_nil in Hin.
Defined.

(** X11. The choice of the latest version does not depend on the order in
    which the directory is listed: listings that are permutations of one
    another give the same list of versions and the same redirection. *)
Theorem versions_ignore_listing_order
    (h : Host) (agentPath : string) (entries entries' : list string) :
  entries ≡ₚ entries' ->
  versions entries = versions entries' /\
  from_listing h agentPath entries = from_listing h agentPath entries'.
Proof.
  intros Hperm.
  assert (Hv : versions entries = versions entries').
  { unfold versions. f_equal.
    destruct (sort_spec (filter (fun name => Regex.test version_re name = true)
                           entries)) as [Hs1 Hp1].
    destruct (sort_spec (filter (fun name => Regex.test version_re name = true)
                           entries')) as [Hs2 Hp2].
    apply (StronglySorted_unique String.le); [done | done |].
    by rewrite Hp1, Hp2, Hperm. }
  split; [done |]. unfold from_listing. by rewrite Hv.
Qed.

Lemma versions_ignore_listing_order_witness :
  versions ["2023.12.31-00ff"; "2024.10.1-def456"; "2024.1.2-abc123"]
  = versions ["2024.1.2-abc123"; "2023.12.31-00ff"; "2024.10.1-def456"].
Proof.
  apply (versions_ignore_listing_order
           (Examples.windows (Fulfilled [])) "C:\tools\agent.cmd").
  change ["2024.1.2-abc123"; "2023.12.31-00ff"; "2024.10.1-def456"]
    with (["2024.1.2-abc123"]
            ++ ["2023.12.31-00ff"; "2024.10.1-def456"]).
  etransitivity; [| apply Permutation_app_comm]. reflexivity.
Defined.

(** ** More on the life of the child *)
Section Supervision.
Import Observations.

Lemma handle_listener_effects (cmd : string) (st : RunState) (ev : Event) :
  exists l, effects (handle cmd st ev) = effects st ++ l /\
            Forall (fun e => listener_effect e = true) l.
Proof.
  destruct ev as [c|c|err|code|]; simpl.
  - exists []. by rewrite app_nil_r.
  - exists []. by rewrite app_nil_r.
  - unfold clear_timeout.
    destruct (timeout st), (bool_decide _); simpl; rewrite <- ?app_assoc;
      eexists; (split; [reflexivity |]); by repeat constructor.
  - unfold clear_timeout.
    destruct (timeout st); simpl; rewrite <- ?app_assoc;
      eexists; (split; [reflexivity |]); by repeat constructor.
  - destruct (timeout st); simpl;
      try (exists []; by rewrite app_nil_r);
      eexists; (split; [reflexivity |]); by repeat constructor.
Qed.

Lemma deliver_listener_effects (cmd : string) (evs : list Event)
    (st : RunState) :
  exists l, effects (deliver cmd st evs) = effects st ++ l /\
            Forall (fun e => listener_effect e = true) l.
Proof.
  revert st. induction evs as [|ev evs IH]; intros st; simpl.
  - exists []. by rewrite app_nil_r.
  - destruct (IH (handle cmd st ev)) as (l2 & -> & F2).
    destruct (handle_listener_effects cmd st ev) as (l1 & -> & F1).
    exists (l1 ++ l2). split; [by rewrite app_assoc | by apply Forall_app].
Qed.

Lemma kills_app (l1 l2 : list effect) : kills (l1 ++ l2) = kills l1 + kills l2.
Proof. unfold kills. by rewrite filter_app, length_app. Qed.

Lemma kills_none (l : list effect) :
  Forall (fun e => is_kill e = false) l -> kills l = 0.
Proof.
  unfold kills. induction 1 as [|e l He _ IH]; [done |].
  rewrite filter_cons. destruct (decide (is_kill e = true)); [congruence | done].
Qed.

Lemma kills_start (opts : RunOptions) (inv : Invocation) :
  kills (effects (start opts inv)) = 0.
Proof.
  apply kills_none. simpl. constructor; [done |]. apply Forall_app. split.
  - unfold feed_stdin. destruct (stdin opts) as [text|]; [| constructor].
    destruct (truthy text && has_stdin (stdin_mode opts));
      by repeat constructor.
  - destruct (arm_timeout opts); by repeat constructor.
Qed.

Lemma handle_unarmed_after_settling (cmd : string) (st : RunState)
    (ev : Event) :
  settles ev = true ->
  armed (timeout (handle cmd st ev)) = false /\
  kills (effects (handle cmd st ev)) = kills (effects st).
Proof.
  intros Hs. destruct (handle_settling cmd st ev Hs) as (s & Hs' & -> & -> & _).
  split; [by destruct (timeout st) |].
  rewrite kills_app. destruct (has_timer (timeout st)), s; try discriminate Hs';
    unfold kills at 2; simpl; lia.
Qed.

(** At most one more kill is sent, and none unless the timer is pending
    and expires. *)
Lemma deliver_kills (cmd : string) (evs : list Event) (st : RunState) :
  kills (effects (deliver cmd st evs))
  <= kills (effects st)
     + (if armed (timeout st) && timer_expires evs then 1 else 0).
Proof.
  revert st. induction evs as [|ev evs IH]; intros st.
  - simpl. lia.
  - destruct (armed (timeout st)) eqn:Ha.
    + cbn [deliver fold_left]. fold (deliver cmd (handle cmd st ev) evs).
      destruct ev as [c|c|err|code|].
      * specialize (IH (handle cmd st (EvStdout c))). simpl in IH.
        rewrite Ha in IH. exact IH.
      * specialize (IH (handle cmd st (EvStderr c))). simpl in IH.
        rewrite Ha in IH. exact IH.
      * destruct (handle_unarmed_after_settling cmd st (EvError err) eq_refl)
          as (Hun & Hk).
        destruct (deliver_unarmed cmd evs _ Hun) as (_ & l & -> & Hl).
        rewrite kills_app, (kills_none l Hl), Hk. lia.
      * destruct (handle_unarmed_after_settling cmd st (EvClose code) eq_refl)
          as (Hun & Hk).
        destruct (deliver_unarmed cmd evs _ Hun) as (_ & l & -> & Hl).
        rewrite kills_app, (kills_none l Hl), Hk. lia.
      * assert (Hun : armed (timeout (handle cmd st EvTimeout)) = false).
        { simpl. by destruct (timeout st). }
        destruct (deliver_unarmed cmd evs _ Hun) as (_ & l & -> & Hl).
        rewrite kills_app, (kills_none l Hl).
        simpl. destruct (timeout st); try discriminate Ha.
        simpl. rewrite kills_app. unfold kills at 2. simpl. lia.
    + destruct (deliver_unarmed cmd (ev :: evs) st Ha) as (_ & l & -> & Hl).
      rewrite kills_app, (kills_none l Hl). simpl. lia.
Qed.

End Supervision.

(** X12. Whenever [run] spawns the child, the arguments of the caller
    reach it complete and in their order, as the tail of the spawned
    arguments: nothing is put before them when the command is spawned
    directly, [/d /s /c] and the command when it goes through the command
    interpreter, and the bundled script after a redirection; the last two
    happen on Windows only. *)
Theorem caller_arguments_are_kept
    (m : Machine) (cmd : string) (args : list string) (opts : RunOptions)
    (evs : list Event) (command : string) (arguments : list string) :
  spawned m cmd args opts evs = Some (command, arguments) ->
  exists prefix,
    arguments = prefix ++ args /\
    ((prefix = [] /\ command = cmd) \/
     (prefix = ["/d"; "/s"; "/c"; cmd] /\ platform (host m) = "win32") \/
     (exists script, prefix = [script] /\ platform (host m) = "win32")).
Proof.
  intros Hs.
  destruct (resolveWindowsCursorAgent m cmd) as [[[r|]|e]|e|] eqn:Hr.
  - destruct (resolved_shape m cmd r Hr) as (Hp & versionsDir & latest & ->).
    rewrite (spawned_spec m cmd args opts evs _
               (resolve_invocation_resolved m cmd args _ Hr)) in Hs.
    injection Hs as <- <-.
    exists [join (host m) [versionsDir; latest; "index.js"]].
    split; [reflexivity |]. right. right. by eexists.
  - rewrite (spawned_spec m cmd args opts evs _
               (resolve_invocation_unresolved m cmd args Hr)) in Hs.
    unfold unresolved_invocation in Hs.
    destruct (String.eqb_spec (platform (host m)) "win32") as [Hp|Hp];
      cbn [andb] in Hs.
    + destruct (endsWith cmd ".cmd" || endsWith cmd ".bat"
                || String.eqb cmd "agent"); injection Hs as <- <-.
      * exists ["/d"; "/s"; "/c"; cmd]. split; [reflexivity |].
        right. by left.
      * exists []. split; [reflexivity |]. by left.
    + injection Hs as <- <-. exists []. split; [reflexivity |]. by left.
  - unfold spawned, run_state, resolve_invocation in Hs. by rewrite Hr in Hs.
  - unfold spawned, run_state, resolve_invocation in Hs. by rewrite Hr in Hs.
  - unfold spawned, run_state, resolve_invocation in Hs. by rewrite Hr in Hs.
Qed.

Lemma caller_arguments_are_kept_witness :
  exists prefix,
    ["C:\tools\versions\2024.10.1-def456\index.js"; "chat"; "--print"]
    = prefix ++ ["chat"; "--print"].
Proof.
  destruct (caller_arguments_are_kept
              (Examples.windows (Fulfilled Examples.two_versions))
              "agent" ["chat"; "--print"] Examples.no_options
              [EvClose (Some 0%Z)]
              "C:\tools\versions\2024.10.1-def456\node.exe"
              ["C:\tools\versions\2024.10.1-def456\index.js"; "chat"; "--print"])
    as (prefix & H & _).
  - vm_compute. reflexivity.
  - by exists prefix.
Defined.

(** X13. Whenever [run] gets to spawn the child, whatever events arrive,
    all that it does is this, in this order: on Windows and for the bare
    name [agent], and only then, it first spawns [where agent], without a
    working directory and with only the output stream piped; then it
    spawns the child, once, with the working directory of the options,
    with the output and error streams piped and with [windowsHide] set;
    the input is fed and the timer armed right after that, and from then
    on the listeners only clear the timer, kill, resolve or reject:
    nothing is spawned again, written to the input or scheduled. *)
Theorem one_spawn_then_listeners_only
    (m : Machine) (cmd : string) (args : list string) (opts : RunOptions)
    (evs : list Event) (st : RunState) :
  run_state m cmd args opts evs = Fulfilled st ->
  exists inv before later,
    resolve_invocation m cmd args = Fulfilled inv /\
    run_trace m cmd args opts evs
    = before
      ++ Spawn (actualCmd inv) (actualArgs inv)
           (mkSpawnOptions (cwd opts) (stdin_mode opts, Pipe, Pipe) true)
         :: feed_stdin opts ++ timer_effects (arm_timeout opts) ++ later /\
    effects st
    = Spawn (actualCmd inv) (actualArgs inv)
        (mkSpawnOptions (cwd opts) (stdin_mode opts, Pipe, Pipe) true)
      :: feed_stdin opts ++ timer_effects (arm_timeout opts) ++ later /\
    Forall (fun e => Observations.listener_effect e = true) later /\
    ((platform (host m) = "win32" /\ cmd = "agent" /\
      before = [Spawn "where" ["agent"]
                  (mkSpawnOptions None (Ignore, Pipe, Ignore) true)]) \/
     ((platform (host m) <> "win32" \/ cmd <> "agent") /\ before = [])).
Proof.
  intros Hst. unfold run_trace. rewrite Hst. unfold run_state in Hst.
  destruct (resolve_invocation m cmd args) as [[inv|e]|e|]; try discriminate.
  injection Hst as <-.
  destruct (deliver_listener_effects cmd evs (start opts inv))
    as (later & Heff & Hlater).
  exists inv, (resolution_spawns m cmd), later.
  split; [done |].
  assert (Hlog : effects (deliver cmd (start opts inv) evs)
                 = Spawn (actualCmd inv) (actualArgs inv)
                     (mkSpawnOptions (cwd opts) (stdin_mode opts, Pipe, Pipe) true)
                   :: feed_stdin opts ++ timer_effects (arm_timeout opts)
                      ++ later).
  { rewrite Heff. simpl. by rewrite <- app_assoc. }
  split; [by rewrite Hlog |]. split; [exact Hlog |]. split; [done |].
  unfold resolution_spawns.
  destruct (String.eqb_spec (platform (host m)) "win32") as [Hp|Hp];
    [| right; split; [by left | done]].
  destruct (String.eqb_spec cmd "agent") as [Hc|Hc];
    [left; done | right; split; [by right | done]].
Qed.

Lemma one_spawn_then_listeners_only_witness :
  exists inv later,
    run_trace (Examples.windows (Fulfilled Examples.two_versions))
      "agent" ["chat"] (mkRunOptions None (Some (Finite 100)) (Some "hi"))
      [EvStdout "ok"; EvClose (Some 0%Z)]
    = [Spawn "where" ["agent"]
         (mkSpawnOptions None (Ignore, Pipe, Ignore) true)]
      ++ Spawn (actualCmd inv) (actualArgs inv)
           (mkSpawnOptions None (Pipe, Pipe, Pipe) true)
         :: [StdinWrite "hi"; StdinEnd] ++ [SetTimeout (Finite 100)] ++ later.
Proof.
  destruct (one_spawn_then_listeners_only
              (Examples.windows (Fulfilled Examples.two_versions))
              "agent" ["chat"] (mkRunOptions None (Some (Finite 100)) (Some "hi"))
              [EvStdout "ok"; EvClose (Some 0%Z)]
              (deliver "agent"
                 (start (mkRunOptions None (Some (Finite 100)) (Some "hi"))
                    (mkInvocation
                       "C:\tools\versions\2024.10.1-def456\node.exe"
                       ["C:\tools\versions\2024.10.1-def456\index.js"; "chat"]))
                 [EvStdout "ok"; EvClose (Some 0%Z)]))
    as (inv & before & later & _ & Htr & _ & _ & Hbefore).
  - vm_compute. reflexivity.
  - destruct Hbefore as [(_ & _ & ->) | ([Hp | Hc] & _)].
    + exists inv, later. exact Htr.
    + by destruct Hp.
    + by destruct Hc.
Defined.

(** X14. The child is sent a kill signal at most once in the life of an
    invocation, and only when a timer was armed (a number greater than
    zero was given as [timeoutMs]) and has expired. *)
Theorem child_is_killed_at_most_once
    (h : Host) (cmd : string) (args : list string) (opts : RunOptions)
    (evs : list Event) (st : RunState) :
  run_state h cmd args opts evs = Fulfilled st ->
  Observations.kills (effects st) <= 1 /\
  (Observations.kills (effects st) = 1 ->
   (exists ms, timeoutMs opts = Some ms /\ gt_zero ms = true) /\
   Observations.timer_expires evs = true).
Proof.
  unfold run_state.
  destruct (resolve_invocation h cmd args) as [[inv|e]|e|]; try discriminate.
  intros [= <-].
  pose proof (deliver_kills cmd evs (start opts inv)) as Hk.
  rewrite kills_start in Hk. cbn [start timeout] in Hk.
  destruct (arm_timeout opts) as [|ms| |] eqn:Harm; cbn [armed andb] in Hk;
    try (split; [lia | intros ?; lia]).
  destruct (Observations.timer_expires evs); [| split; [lia | intros ?; lia]].
  split; [lia |]. intros _. split; [| done].
  exists ms. by apply arm_timeout_spec.
Qed.

Lemma child_is_killed_at_most_once_witness :
  Observations.kills
    (effects
       (deliver "agent"
          (start (mkRunOptions None (Some (Finite 100)) None)
             (mkInvocation "agent" []))
          [EvTimeout; EvTimeout; EvStdout "late"; EvTimeout; EvClose None]))
  <= 1.
Proof.
  apply (child_is_killed_at_most_once Examples.linux "agent" []
           (mkRunOptions None (Some (Finite 100)) None)
           [EvTimeout; EvTimeout; EvStdout "late"; EvTimeout; EvClose None]).
  reflexivity.
Defined.

Section TimeoutResult.

Lemma chunk_is_quiet (evs : list Event) :
  Forall (fun ev => is_chunk ev = true) evs -> Forall quiet evs.
Proof.
  intros H. eapply Forall_impl; [exact H |]. intros ev Hev. by destruct ev.
Qed.

Lemma stdout_chunks_app (l1 l2 : list Event) :
  stdout_chunks (l1 ++ l2) = stdout_chunks l1 ++ stdout_chunks l2.
Proof. apply omap_app. Qed.

Lemma stderr_chunks_app (l1 l2 : list Event) :
  stderr_chunks (l1 ++ l2) = stderr_chunks l1 ++ stderr_chunks l2.
Proof. apply omap_app. Qed.

(** Every sequence of events is quiet, or has a first settling event. *)
Lemma first_settling_split (evs : list Event) :
  Forall quiet evs \/
  exists pre ev post,
    evs = pre ++ ev :: post /\ Forall quiet pre /\ settles ev = true.
Proof.
  induction evs as [|ev evs IH]; [by left |].
  destruct (settles ev) eqn:Hs.
  - right. exists [], ev, evs. by repeat split.
  - destruct IH as [Hq | (pre & ev' & post & -> & Hq & Hs')].
    + left. by constructor.
    + right. exists (ev :: pre), ev', post. repeat split; [| done].
      by constructor.
Qed.

End TimeoutResult.

(** X15. A child that is killed by the timer still ends in a result, not
    in an error: when a timer is armed and expires while only chunks have
    arrived, and the child then closes (after further chunks, if any),
    [run] sends [SIGKILL], clears the timer and resolves, in this order,
    with the code of the close event (0 when there is none) and with all
    the output received before and after the kill. *)
Theorem timeout_kill_surfaces_as_result
    (h : Host) (cmd : string) (args : list string) (opts : RunOptions)
    (ms : number) (before after : list Event) (c : option Z) :
  timeoutMs opts = Some ms -> gt_zero ms = true ->
  Forall (fun ev => is_chunk ev = true) before ->
  Forall (fun ev => is_chunk ev = true) after ->
  exists inv st,
    let r := mkRunResult (nullish c 0%Z)
               (concat_chunks (stdout_chunks (before ++ after)))
               (concat_chunks (stderr_chunks (before ++ after))) in
    resolve_invocation h cmd args = Fulfilled inv /\
    run h cmd args opts (Events (before ++ EvTimeout :: after ++ [EvClose c]))
      = Settled (Fulfilled r) /\
    run_state h cmd args opts (before ++ EvTimeout :: after ++ [EvClose c])
      = Fulfilled st /\
    effects st
      = effects (start opts inv) ++ [Kill "SIGKILL"; ClearTimeout; Resolve r].
Proof.
  intros Hms Hpos Hb Ha.
  destruct (resolve_invocation_fulfilled h cmd args) as [inv Hinv].
  exists inv,
    (deliver cmd (start opts inv) (before ++ EvTimeout :: after ++ [EvClose c])).
  cbn zeta. split; [done |].
  assert (Hq : Forall quiet (before ++ EvTimeout :: after)).
  { apply Forall_app. split; [by apply chunk_is_quiet |].
    constructor; [done | by apply chunk_is_quiet]. }
  assert (Hout : stdout_chunks (before ++ EvTimeout :: after)
                 = stdout_chunks (before ++ after)).
  { by rewrite !stdout_chunks_app. }
  assert (Herr : stderr_chunks (before ++ EvTimeout :: after)
                 = stderr_chunks (before ++ after)).
  { by rewrite !stderr_chunks_app. }
  split; [| split; [unfold run_state; by rewrite Hinv |]].
  - pose proof (close_resolves h cmd args opts (before ++ EvTimeout :: after)
                  [] c Hq) as Hrun.
    rewrite <- app_assoc in Hrun. cbn [app] in Hrun.
    by rewrite Hrun, Hout, Herr.
  - replace (before ++ EvTimeout :: after ++ [EvClose c])
      with ((before ++ EvTimeout :: after) ++ [EvClose c])
      by (by rewrite <- app_assoc).
    rewrite deliver_app. cbn [deliver fold_left].
    destruct (deliver_buffers cmd (before ++ EvTimeout :: after) (start opts inv))
      as (Hso & Hse).
    cbn [start stdout_acc stderr_acc] in Hso, Hse.
    rewrite string_app_nil_l, Hout in Hso. rewrite string_app_nil_l, Herr in Hse.
    fold (deliver cmd (start opts inv) (before ++ EvTimeout :: after)) in *.
    assert (Hstate :
      timeout (deliver cmd (start opts inv) (before ++ EvTimeout :: after)) = Fired /\
      effects (deliver cmd (start opts inv) (before ++ EvTimeout :: after))
        = effects (start opts inv) ++ [Kill "SIGKILL"]).
    { rewrite deliver_app. cbn [deliver fold_left].
      fold (deliver cmd (start opts inv) before).
      destruct (deliver_chunks cmd before (start opts inv) Hb) as [Ht He].
      set (st1 := handle cmd (deliver cmd (start opts inv) before) EvTimeout).
      fold (deliver cmd st1 after).
      destruct (deliver_chunks cmd after st1 Ha) as [-> ->].
      unfold st1. simpl. rewrite Ht. simpl.
      rewrite (proj2 (arm_timeout_spec opts ms) (conj Hms Hpos)).
      simpl. split; [done |]. rewrite He. simpl.
      by rewrite (proj2 (arm_timeout_spec opts ms) (conj Hms Hpos)). }
    destruct Hstate as [Ht He].
    simpl. unfold clear_timeout. rewrite Ht. simpl.
    rewrite He, Hso, Hse. simpl. by rewrite <- !app_assoc.
Qed.

Lemma timeout_kill_surfaces_as_result_witness :
  run Examples.linux "agent" ["-p"; "hi"]
    (mkRunOptions None (Some (Finite 30000)) None)
    (Events [EvStdout "thinking"; EvTimeout; EvStderr "killed"; EvClose None])
  = Settled (Fulfilled (mkRunResult 0 "thinking" "killed")).
Proof.
  destruct (timeout_kill_surfaces_as_result Examples.linux "agent" ["-p"; "hi"]
              (mkRunOptions None (Some (Finite 30000)) None) (Finite 30000)
              [EvStdout "thinking"] [EvStderr "killed"] None)
    as (inv & st & _ & Hrun & _).
  - reflexivity.
  - reflexivity.
  - repeat constructor.
  - repeat constructor.
  - exact Hrun.
Defined.

(** X16. The promise of [run] stays pending exactly as long as neither
    ['error'] nor ['close'] has been delivered: chunks and the expiry of
    the timer never settle it, so that after a timeout the result still
    waits for the child to close. *)
Theorem promise_pending_until_error_or_close
    (h : Host) (cmd : string) (args : list string) (opts : RunOptions)
    (evs : list Event) :
  run h cmd args opts (Events evs) = Pending <-> Forall quiet evs.
Proof.
  destruct (run_events h cmd args opts evs) as (inv & _ & ->).
  split.
  - intros Hpending.
    destruct (first_settling_split evs)
      as [Hq | (pre & ev & post & -> & Hq & Hs)]; [done |].
    destruct (handle_settling cmd (deliver cmd (start opts inv) pre) ev Hs)
      as (_ & _ & _ & _ & Hne).
    destruct (promise (handle cmd (deliver cmd (start opts inv) pre) ev))
      as [|o] eqn:Hp; [done |].
    rewrite (settled_for_good cmd _ pre post ev o Hp) in Hpending.
    discriminate.
  - intros Hq. by destruct (deliver_quiet cmd evs (start opts inv) Hq) as [-> _].
Qed.

(** ** The output of [where] *)
Section WhereOutput.
Import Observations.

Lemma trimStart_length (s : string) :
  String.length (trimStart s) <= String.length s.
Proof.
  induction s as [|c s IH]; simpl; [done |].
  destruct (is_space c); simpl; lia.
Qed.

Lemma trimStart_fixed (c : ascii) (s : string) :
  trimStart (String c s) = String c s -> is_space c = false.
Proof.
  simpl. destruct (is_space c); [| done]. intros H.
  pose proof (trimStart_length s) as Hl. rewrite H in Hl. simpl in Hl. lia.
Qed.

Lemma trimStart_app (p x : string) :
  p <> "" -> trimStart p = p -> trimStart (p +:+ x) = p +:+ x.
Proof.
  destruct p as [|c p]; [done |]. intros _ H.
  rewrite string_app_cons. simpl. by rewrite (trimStart_fixed c p H).
Qed.

Lemma trimEnd_app (a b : string) :
  trimEnd (a +:+ b) =
  match trimEnd b with
  | EmptyString => trimEnd a
  | String _ _ => a +:+ trimEnd b
  end.
Proof.
  induction a as [|c a IH].
  - rewrite !string_app_nil_l. by destruct (trimEnd b).
  - rewrite string_app_cons. simpl. rewrite IH.
    destruct (trimEnd b) as [|c' t]; [done |].
    rewrite string_app_cons.
    by destruct a; rewrite ?string_app_nil_l, ?string_app_cons.
Qed.

Lemma first_line_no_break (p : string) :
  no_line_break p -> first_line p = p.
Proof.
  induction p as [|c p IH]; [done |]. intros H.
  apply all_chars_cons in H as [Hc Hp].
  apply andb_true_iff in Hc as [Hcr Hlf]. apply negb_true_iff in Hcr, Hlf.
  simpl. rewrite Hlf, Hcr. simpl. by rewrite IH.
Qed.

Lemma first_line_app (p nl rest : string) :
  no_line_break p -> line_break nl ->
  first_line (p +:+ nl +:+ rest) = p.
Proof.
  intros Hp Hnl. induction p as [|c p IH].
  - rewrite string_app_nil_l.
    destruct Hnl as [-> | ->]; rewrite !string_app_cons, string_app_nil_l.
    + simpl. by destruct rest.
    + done.
  - apply all_chars_cons in Hp as [Hc Hp].
    apply andb_true_iff in Hc as [Hcr Hlf]. apply negb_true_iff in Hcr, Hlf.
    rewrite string_app_cons. simpl. rewrite Hlf, Hcr. simpl. by rewrite IH.
Qed.

Lemma trimEnd_line_break (nl rest : string) :
  line_break nl ->
  trimEnd (nl +:+ rest) =
  match trimEnd rest with
  | EmptyString => EmptyString
  | String _ _ => nl +:+ trimEnd rest
  end.
Proof.
  intros [-> | ->]; rewrite !string_app_cons, string_app_nil_l; simpl;
    by destruct (trimEnd rest).
Qed.

(** The first line of what [where] printed, when it neither starts nor
    ends with white space. *)
Lemma first_line_of_output (p nl rest : string) :
  p <> "" -> trimStart p = p -> trimEnd p = p ->
  no_line_break p -> line_break nl ->
  first_line (trim (p +:+ nl +:+ rest)) = p.
Proof.
  intros Hne Hs He Hp Hnl. unfold trim.
  rewrite (trimStart_app p _ Hne Hs), trimEnd_app, (trimEnd_line_break nl rest Hnl).
  destruct (trimEnd rest) as [|c t] eqn:Hrest.
  - rewrite He. by apply first_line_no_break.
  - assert (Hcons : exists c' t', nl +:+ String c t = String c' t').
    { destruct Hnl as [-> | ->]; rewrite string_app_cons; by eexists _, _. }
    destruct Hcons as (c' & t' & Hcons). rewrite Hcons, <- Hcons.
    by apply first_line_app.
Qed.

End WhereOutput.

(** X17. Of the output of [where agent] only the first line counts. When
    the output starts with a line [p] (not empty, without white space at
    its ends) followed by a line break and anything else, the path taken
    is [p]: if [p] does not end in [agent.cmd] there is no redirection,
    even when a later line names the wrapper script; if it does, the
    versions are looked up beside [p]. *)
Theorem first_line_of_where_decides
    (h : Host) (chunks : list string) (p nl rest : string) :
  platform h = "win32" ->
  where_agent h = Fulfilled chunks ->
  concat_chunks chunks = p +:+ nl +:+ rest ->
  p <> "" -> trimStart p = p -> trimEnd p = p ->
  Observations.no_line_break p -> Observations.line_break nl ->
  first_line (trim (concat_chunks chunks)) = p /\
  (endsWith p "agent.cmd" = false ->
   resolveWindowsCursorAgent h "agent" = Fulfilled None) /\
  (endsWith p "agent.cmd" = true ->
   resolveWindowsCursorAgent h "agent" =
   from_listing h p
     (match readdir h (join h [dirname h p; "versions"]) with
      | Fulfilled entries => entries
      | Rejected _ => []
      end)).
Proof.
  intros Hp Hw Hout Hne Hs He Hnb Hnl.
  assert (Hfirst : first_line (trim (concat_chunks chunks)) = p).
  { rewrite Hout. by apply first_line_of_output. }
  split; [done |].
  pose proof (resolve_bare_name h chunks Hp Hw) as Hr. cbn zeta in Hr.
  rewrite Hfirst in Hr. rewrite Hr.
  assert (Ht : truthy p = true).
  { unfold truthy. by destruct (String.eqb_spec p ""). }
  rewrite Ht. split; by intros ->.
Qed.

Lemma first_line_of_where_decides_witness :
  resolveWindowsCursorAgent
    (mkHost "win32" ∅ Examples.win_dirname Examples.win_join
       (Fulfilled
          ["C:\npm\agent" +:+ String CR (String LF "C:\npm\agen");
           "t.cmd" +:+ String CR (String LF "")])
       (fun _ => Fulfilled Examples.two_versions))
    "agent"
  = Fulfilled None.
Proof.
  refine (proj1 (proj2 (first_line_of_where_decides
            (mkHost "win32" ∅ Examples.win_dirname Examples.win_join
               (Fulfilled
                  ["C:\npm\agent" +:+ String CR (String LF "C:\npm\agen");
                   "t.cmd" +:+ String CR (String LF "")])
               (fun _ => Fulfilled Examples.two_versions))
            _ "C:\npm\agent" (String CR (String LF ""))
            ("C:\npm\agent.cmd" +:+ String CR (String LF ""))
            _ _ _ _ _ _ _ _)) _).
  - reflexivity.
  - reflexivity.
  - vm_compute. reflexivity.
  - discriminate.
  - vm_compute. reflexivity.
  - vm_compute. reflexivity.
  - unfold Observations.no_line_break, all_chars. vm_compute.
    repeat constructor.
  - by left.
  - vm_compute. reflexivity.
Defined.

(** ** Order of names and order of dates *)
Section Chronology.
Import Observations.

Lemma ascii_compare_nat (c c' : ascii) :
  Ascii.compare c c' = Nat.compare (nat_of_ascii c) (nat_of_ascii c').
Proof.
  unfold Ascii.compare, nat_of_ascii. apply N2Nat.inj_compare.
Qed.

Lemma is_digit_range (c : ascii) :
  Regex.is_digit c = true -> 48 <= nat_of_ascii c <= 57.
Proof.
  unfold Regex.is_digit, Regex.in_range.
  change (nat_of_ascii "0") with 48. change (nat_of_ascii "9") with 57.
  rewrite andb_true_iff, !Nat.leb_le. lia.
Qed.

Lemma decimal_bound (s : string) :
  all_chars Regex.is_digit s -> decimal s < 10 ^ String.length s.
Proof.
  induction s as [|c s IH]; intros H; simpl; [lia |].
  apply all_chars_cons in H as [Hc Hs]. specialize (IH Hs).
  apply is_digit_range in Hc. unfold digit. nia.
Qed.

Lemma compare_refl (s : string) : String.compare s s = Eq.
Proof.
  induction s as [|c s IH]; [done |]. simpl.
  rewrite ascii_compare_nat, Nat.compare_refl. exact IH.
Qed.

(** Strings of digits of one length are ordered like their numbers. *)
Lemma compare_decimal (s s' : string) :
  all_chars Regex.is_digit s -> all_chars Regex.is_digit s' ->
  String.length s = String.length s' ->
  String.compare s s' = Nat.compare (decimal s) (decimal s').
Proof.
  revert s'. induction s as [|c s IH]; intros [|c' s'] Hs Hs' Hl;
    try discriminate Hl; [done |].
  apply all_chars_cons in Hs as [Hc Hs]. apply all_chars_cons in Hs' as [Hc' Hs'].
  injection Hl as Hl. simpl. rewrite ascii_compare_nat, (IH s' Hs Hs' Hl).
  pose proof (decimal_bound s Hs) as Hb. pose proof (decimal_bound s' Hs') as Hb'.
  apply is_digit_range in Hc, Hc'. unfold digit. rewrite <- Hl in *.
  destruct (Nat.compare_spec (nat_of_ascii c) (nat_of_ascii c')) as [E | L | G].
  - rewrite E.
    destruct (Nat.compare_spec (decimal s) (decimal s')) as [E' | L' | G'];
      symmetry; [apply Nat.compare_eq_iff | apply Nat.compare_lt_iff
                | apply Nat.compare_gt_iff]; nia.
  - symmetry. apply Nat.compare_lt_iff. nia.
  - symmetry. apply Nat.compare_gt_iff. nia.
Qed.

(** Strings that begin with parts of one length are ordered by these
    parts first. *)
Lemma compare_app (a a' x x' : string) :
  String.length a = String.length a' ->
  String.compare (a +:+ x) (a' +:+ x') =
  match String.compare a a' with
  | Eq => String.compare x x'
  | r => r
  end.
Proof.
  revert a'. induction a as [|c a IH]; intros [|c' a'] Hl;
    try discriminate Hl; [done |].
  injection Hl as Hl. rewrite !string_app_cons. simpl.
  destruct (Ascii.compare c c'); [by apply IH | done | done].
Qed.

Lemma version_parts_name (y m d b : string) :
  version_parts y m d b -> is_version_name (version_name y m d b).
Proof. intros H. by exists y, m, d, b. Qed.

End Chronology.

(** X18. When the version names in question have months of one width and
    days of one width, the order of names is the order of dates: if the
    latest version is [y.m.d-b], then every entry [y'.m'.d'-b'] of the
    listing that matches the pattern and whose month and day are as wide
    as [m] and [d] has a date that is not after that of the latest. *)
Theorem latest_is_latest_date_for_equal_widths
    (entries : list string) (y m d b y' m' d' b' : string) :
  head (versions entries) = Some (Observations.version_name y m d b) ->
  Observations.version_name y' m' d' b' ∈ entries ->
  Observations.version_parts y m d b ->
  Observations.version_parts y' m' d' b' ->
  String.length m' = String.length m ->
  String.length d' = String.length d ->
  Observations.date_le
    (Observations.decimal y', Observations.decimal m', Observations.decimal d')
    (Observations.decimal y, Observations.decimal m, Observations.decimal d).
Proof.
  intros Hhead Hin Hparts Hparts' Hm Hd.
  assert (Hle : String.le (Observations.version_name y' m' d' b')
                  (Observations.version_name y m d b)).
  { apply (versions_head_greatest entries _ Hhead).
    apply versions_elem_of. split; [done |].
    by apply version_re_spec, version_parts_name. }
  destruct Hparts as ((Hy & Hyd) & (_ & Hmd) & (_ & Hdd) & _).
  destruct Hparts' as ((Hy' & Hyd') & (_ & Hmd') & (_ & Hdd') & _).
  unfold String.le, String.leb, Observations.version_name in Hle.
  rewrite (compare_app y' y) in Hle by congruence.
  rewrite (compare_decimal y' y Hyd' Hyd) in Hle by congruence.
  rewrite (compare_app "." ".") in Hle by done.
  rewrite (compare_app m' m) in Hle by done.
  rewrite (compare_decimal m' m Hmd' Hmd Hm) in Hle.
  rewrite (compare_app "." ".") in Hle by done.
  rewrite (compare_app d' d) in Hle by done.
  rewrite (compare_decimal d' d Hdd' Hdd Hd) in Hle.
  cbn [String.compare Ascii.compare] in Hle.
  unfold Observations.date_le.
  destruct (Nat.compare_spec (Observations.decimal y') (Observations.decimal y))
    as [Ey | Ly | Gy]; [| by left | done].
  right. split; [done |].
  change (Ascii.compare "." ".") with Eq in Hle. cbn iota in Hle.
  destruct (Nat.compare_spec (Observations.decimal m') (Observations.decimal m))
    as [Em | Lm | Gm]; [| by left | done].
  right. split; [done |].
  destruct (Nat.compare_spec (Observations.decimal d') (Observations.decimal d))
    as [Ed | Ld | Gd]; [lia | lia | done].
Qed.

Lemma latest_is_latest_date_for_equal_widths_witness :
  Observations.date_le (2024, 9, 30) (2024, 10, 1).
Proof.
  refine (latest_is_latest_date_for_equal_widths
            ["2024.09.30-abc123"; "2024.10.01-def456"; "2023.12.31-00ff"]
            "2024" "10" "01" "def456" "2024" "09" "30" "abc123" _ _ _ _ _ _).
  - vm_compute. reflexivity.
  - apply list_elem_of_here.
  - unfold Observations.version_parts, all_chars. vm_compute.
    repeat split; try lia; repeat constructor.
  - unfold Observations.version_parts, all_chars. vm_compute.
    repeat split; try lia; repeat constructor.
  - reflexivity.
  - reflexivity.
Defined.

Example unequal_widths_invert_the_order :
  head (versions ["2024.9.1-abc123"; "2024.10.1-def456"])
  = Some "2024.9.1-abc123".
Proof. vm_compute. reflexivity. Qed.

Lemma agent_bin_is_never_empty_witness :
  Plugin.getCursorAgentBin
    (<["HOME" := "/home/dev"]> (<["CURSOR_CLI_BIN" := "/opt/cursor"]> ∅))
  = Plugin.getCursorAgentBin (<["CURSOR_CLI_BIN" := "/opt/cursor"]> ∅).
Proof.
  apply (proj2 (proj2 (agent_bin_is_never_empty
                         (<["CURSOR_CLI_BIN" := "/opt/cursor"]> ∅)))).
  intros k Hk. unfold Plugin.bin_variables in Hk.
  repeat (apply elem_of_cons in Hk as [-> | Hk]; [vm_compute; reflexivity |]).
  by apply elem_of_nil in Hk.
Defined.

Lemma promise_pending_until_error_or_close_witness :
  run Examples.linux "agent" [] (mkRunOptions None (Some (Finite 10)) None)
    (Events [EvStdout "working"; EvTimeout; EvStderr "..."])
  = Pending.
Proof.
  apply (proj2 (promise_pending_until_error_or_close Examples.linux "agent" []
                  (mkRunOptions None (Some (Finite 10)) None)
                  [EvStdout "working"; EvTimeout; EvStderr "..."])).
  repeat constructor.
Defined.
